(** * music-bites: the snippet editor of [src/app/music-inspiration-repo.tsx]

    A shallow embedding of the [MusicInspirationRepo] component: the time
    codec ([timeToSeconds], [secondsToTime], [validateTimeFormat]), the
    snippet collection handlers, the persistence fallback and the playback
    bookkeeping, followed by the properties established about them.

    Conventions.
    - A JavaScript string is a [string]; its characters stand for the code
      units below 256.
    - A JavaScript number that holds an integer is a [Z], and one with a
      fraction an exact rational [Q]; [NaN] is [None]. Rounding of doubles
      beyond 2^53 and the exponent notation that [toString] switches to
      from 10^21 on are outside the model: statements about numbers that
      are not bounded by their inputs are made up to
      [Number.MAX_SAFE_INTEGER].
    - The JSON blob stored under the key ["musicSnippets"] is represented
      by the list of records it serialises.
    - The component is rendered after every synchronous segment of a
      handler, the state changes of the segment being applied together;
      an effect runs at that render when one of its dependencies has
      changed. A handler reads the state through the constants of the
      render in which it was created, and [audioRefs.current] directly. *)

From Stdlib Require Import ZArith QArith Qround String Ascii List Bool Lia.
From stdpp Require Import base strings list gmap.

Local Open Scope string_scope.
Local Open Scope Z_scope.

(** ** JavaScript string and number primitives used by the component *)

Module Js.

(** [s.split(sep)] for a one-character separator. *)
Fixpoint split (sep : ascii) (s : string) : list string :=
  match s with
  | EmptyString => [EmptyString]
  | String c r =>
      if Ascii.eqb c sep then EmptyString :: split sep r
      else match split sep r with
           | h :: t => String c h :: t
           | [] => [String c EmptyString]
           end
  end.

(** [\d] of a regular expression without the unicode flag: [0-9]. *)
Definition isDigit (c : ascii) : bool :=
  let n := N_of_ascii c in (48 <=? n)%N && (n <=? 57)%N.

Definition decVal (c : ascii) : option Z :=
  if isDigit c then Some (Z.of_N (N_of_ascii c) - 48) else None.

Definition hexVal (c : ascii) : option Z :=
  let n := N_of_ascii c in
  if isDigit c then Some (Z.of_N n - 48)
  else if (97 <=? n)%N && (n <=? 102)%N then Some (Z.of_N n - 87)
  else if (65 <=? n)%N && (n <=? 70)%N then Some (Z.of_N n - 55)
  else None.

(** White space and line terminators below code unit 256. *)
Definition isWhiteSpace (c : ascii) : bool :=
  let n := N_of_ascii c in
  ((9 <=? n)%N && (n <=? 13)%N) || (n =? 32)%N || (n =? 160)%N.

Fixpoint trimStart (s : string) : string :=
  match s with
  | String c r => if isWhiteSpace c then trimStart r else s
  | EmptyString => EmptyString
  end.

(** The longest prefix of digits of the radix, read as a number; [acc] is
    [None] until a digit has been seen. *)
Fixpoint parseDigits (radix : Z) (val : ascii -> option Z) (s : string)
    (acc : option Z) : option Z :=
  match s with
  | String c r =>
      match val c with
      | Some d =>
          let before := match acc with Some a => a | None => 0 end in
          parseDigits radix val r (Some (radix * before + d))
      | None => acc
      end
  | EmptyString => acc
  end.

(** [Number.parseInt(s)] with the radix left out: leading white space is
    skipped, a sign is read, a [0x]/[0X] prefix selects radix 16, and the
    digits that follow are read up to the first other character. [None]
    is [NaN]. The number read is exact; the code has it rounded to a
    double, which differs beyond [Number.MAX_SAFE_INTEGER]. *)
Definition parseInt (s : string) : option Z :=
  let s1 := trimStart s in
  let '(sign, s2) :=
    match s1 with
    | String c r =>
        if Ascii.eqb c "-" then (-1, r)
        else if Ascii.eqb c "+" then (1, r)
        else (1, s1)
    | EmptyString => (1, s1)
    end in
  let digits :=
    match s2 with
    | String c0 (String c1 r) =>
        if Ascii.eqb c0 "0" && (Ascii.eqb c1 "x" || Ascii.eqb c1 "X")
        then parseDigits 16 hexVal r None
        else parseDigits 10 decVal s2 None
    | _ => parseDigits 10 decVal s2 None
    end in
  option_map (Z.mul sign) digits.

(** [v || 0] on a number: [NaN] and [0] give [0]. *)
Definition orZero (v : option Z) : Z :=
  match v with
  | Some n => n
  | None => 0
  end.

Definition digitChar (d : Z) : ascii := ascii_of_N (Z.to_N (48 + d)).

(** The decimal digits of a non-negative integer, most significant first,
    in front of [acc]. *)
Fixpoint digitsOf (fuel : nat) (n : Z) (acc : string) : string :=
  match fuel with
  | O => acc
  | S f =>
      let acc' := String (digitChar (n mod 10)) acc in
      if n <? 10 then acc' else digitsOf f (n / 10) acc'
  end.

(** [n.toString()] for an integer [n]: its decimal digits, which is what
    the code writes for numbers below 10^21. *)
Definition toString (n : Z) : string :=
  let m := Z.abs n in
  let ds := digitsOf (S (Z.to_nat (Z.log2 m))) m EmptyString in
  if n <? 0 then String "-" ds else ds.

Fixpoint replicate (n : nat) (c : ascii) : string :=
  match n with
  | O => EmptyString
  | S k => String c (replicate k c)
  end.

(** [s.padStart(len, fill)] for a one-character [fill]. *)
Definition padStart (len : nat) (fill : ascii) (s : string) : string :=
  replicate (len - String.length s) fill ++ s.

Fixpoint startsWith (p s : string) : bool :=
  match p, s with
  | EmptyString, _ => true
  | String a p', String b s' => Ascii.eqb a b && startsWith p' s'
  | String _ _, EmptyString => false
  end.

(** [s.includes(p)]. *)
Fixpoint includes (p s : string) : bool :=
  startsWith p s ||
  match s with
  | EmptyString => false
  | String _ r => includes p r
  end.

End Js.

(** ** Time codec (lines 262-281) *)

Definition timeToSeconds (timeStr : string) : Z :=
  match Js.split ":" timeStr with
  | [p0; p1] =>
      let minutes := Js.orZero (Js.parseInt p0) in
      let seconds := Js.orZero (Js.parseInt p1) in
      minutes * 60 + seconds
  | _ => 0
  end.

(** Lines 272-276 on a whole number of seconds: [Math.floor(seconds / 60)]
    is the floor division; [%] is the remainder that takes the sign of the
    dividend. [Fractional.secondsToTime] below is the function on a number
    with a fraction. *)
Definition secondsToTime (seconds : Z) : string :=
  let mins := seconds / 60 in
  let secs := Z.rem seconds 60 in
  Js.toString mins ++ ":" ++ Js.padStart 2 "0" (Js.toString secs).

(** [/^\d{1,2}:\d{2}$/.test(timeStr)] *)
Definition validateTimeFormat (timeStr : string) : bool :=
  match list_ascii_of_string timeStr with
  | [a; c; x; y] =>
      Js.isDigit a && Ascii.eqb c ":" && Js.isDigit x && Js.isDigit y
  | [a; b; c; x; y] =>
      Js.isDigit a && Js.isDigit b && Ascii.eqb c ":" && Js.isDigit x && Js.isDigit y
  | _ => false
  end.

(** ** Data model (lines 14-24) *)

(** A value that a snippet field can hold at run time. *)
Inductive JsValue :=
| JsString (s : string)
| JsNumber (n : Z)
| JsNull.

(** [interface MusicSnippet]. [audio_type] is declared as one of ["file"],
    ["spotify"], ["soundcloud"] and [position] as a number; both are kept
    as wide as [updateSnippet] can make them, which writes a string into
    whichever field it is given. *)
Module Snippet.
Record t := mk {
  id : string;
  song_name : string;
  audio_type : string;
  audio_url : option string;
  spotify_url : string;
  soundcloud_url : string;
  start_time : string;
  notes : string;
  position : JsValue
}.
End Snippet.

Abbreviation MusicSnippet := Snippet.t.

(** [keyof MusicSnippet] *)
Inductive Field :=
| F_id | F_song_name | F_audio_type | F_audio_url | F_spotify_url
| F_soundcloud_url | F_start_time | F_notes | F_position.

Definition getField (f : Field) (s : MusicSnippet) : JsValue :=
  match f with
  | F_id => JsString (Snippet.id s)
  | F_song_name => JsString (Snippet.song_name s)
  | F_audio_type => JsString (Snippet.audio_type s)
  | F_audio_url =>
      match Snippet.audio_url s with Some u => JsString u | None => JsNull end
  | F_spotify_url => JsString (Snippet.spotify_url s)
  | F_soundcloud_url => JsString (Snippet.soundcloud_url s)
  | F_start_time => JsString (Snippet.start_time s)
  | F_notes => JsString (Snippet.notes s)
  | F_position => Snippet.position s
  end.

(** [{ ...snippet, [field]: value }] for a string [value]. *)
Definition setField (f : Field) (value : string) (s : MusicSnippet) : MusicSnippet :=
  let '(Snippet.mk i n t a sp sc st no po) := s in
  match f with
  | F_id => Snippet.mk value n t a sp sc st no po
  | F_song_name => Snippet.mk i value t a sp sc st no po
  | F_audio_type => Snippet.mk i n value a sp sc st no po
  | F_audio_url => Snippet.mk i n t (Some value) sp sc st no po
  | F_spotify_url => Snippet.mk i n t a value sc st no po
  | F_soundcloud_url => Snippet.mk i n t a sp value st no po
  | F_start_time => Snippet.mk i n t a sp sc value no po
  | F_notes => Snippet.mk i n t a sp sc st value po
  | F_position => Snippet.mk i n t a sp sc st no (JsString value)
  end.

(** [s.id === id] *)
Definition hasId (id : string) (s : MusicSnippet) : bool :=
  String.eqb (Snippet.id s) id.

Definition ids (l : list MusicSnippet) : list string := map Snippet.id l.

(** ** Component state *)

(** An [HTMLAudioElement] held in [audioRefs.current]. *)
Record Audio := { paused : bool; currentTime : Z }.

Definition pause (a : Audio) : Audio :=
  {| paused := true; currentTime := currentTime a |}.
Definition play (a : Audio) : Audio :=
  {| paused := false; currentTime := currentTime a |}.
Definition seek (t : Z) (a : Audio) : Audio :=
  {| paused := paused a; currentTime := t |}.

(** Requests sent to the [music_snippets] table. *)
Inductive RemoteCall :=
| Upsert (s : MusicSnippet)
| DeleteById (id : string).

(** Title lookups against the oEmbed endpoints, by the pasted URL. *)
Inductive Lookup :=
| SpotifyOEmbed (url : string)
| SoundCloudOEmbed (url : string).

(** The [useState] cells and the [audioRefs] ref of the component, with
    the two stores it talks to. [supabase] tells whether [getSupabase()]
    returns a client; [localStorage] is the item ["musicSnippets"];
    [remoteCalls] lists the requests sent so far, oldest first; [effectDue]
    tells that a dependency of the effect of lines 127-131 has changed
    since the last render. *)
Record State := {
  snippets : list MusicSnippet;
  currentlyPlaying : option string;
  saving : bool;
  useLocalStorage : bool;
  audioRefs : gmap string Audio;
  supabase : bool;
  localStorage : option (list MusicSnippet);
  remoteCalls : list RemoteCall;
  effectDue : bool
}.

Definition setSnippets (v : list MusicSnippet) (st : State) : State :=
  {| snippets := v; currentlyPlaying := currentlyPlaying st;
     saving := saving st; useLocalStorage := useLocalStorage st;
     audioRefs := audioRefs st; supabase := supabase st;
     localStorage := localStorage st; remoteCalls := remoteCalls st;
     effectDue := true |}.

Definition setCurrentlyPlaying (v : option string) (st : State) : State :=
  {| snippets := snippets st; currentlyPlaying := v;
     saving := saving st; useLocalStorage := useLocalStorage st;
     audioRefs := audioRefs st; supabase := supabase st;
     localStorage := localStorage st; remoteCalls := remoteCalls st;
     effectDue := effectDue st |}.

Definition setSaving (v : bool) (st : State) : State :=
  {| snippets := snippets st; currentlyPlaying := currentlyPlaying st;
     saving := v; useLocalStorage := useLocalStorage st;
     audioRefs := audioRefs st; supabase := supabase st;
     localStorage := localStorage st; remoteCalls := remoteCalls st;
     effectDue := effectDue st |}.

(** Setting the flag to the value it has does not trigger the effect. *)
Definition setUseLocalStorage (v : bool) (st : State) : State :=
  {| snippets := snippets st; currentlyPlaying := currentlyPlaying st;
     saving := saving st; useLocalStorage := v;
     audioRefs := audioRefs st; supabase := supabase st;
     localStorage := localStorage st; remoteCalls := remoteCalls st;
     effectDue := effectDue st || negb (Bool.eqb v (useLocalStorage st)) |}.

Definition setAudioRefs (v : gmap string Audio) (st : State) : State :=
  {| snippets := snippets st; currentlyPlaying := currentlyPlaying st;
     saving := saving st; useLocalStorage := useLocalStorage st;
     audioRefs := v; supabase := supabase st;
     localStorage := localStorage st; remoteCalls := remoteCalls st;
     effectDue := effectDue st |}.

(** [localStorage.setItem("musicSnippets", JSON.stringify(v))] *)
Definition setItem (v : list MusicSnippet) (st : State) : State :=
  {| snippets := snippets st; currentlyPlaying := currentlyPlaying st;
     saving := saving st; useLocalStorage := useLocalStorage st;
     audioRefs := audioRefs st; supabase := supabase st;
     localStorage := Some v; remoteCalls := remoteCalls st;
     effectDue := effectDue st |}.

Definition send (c : RemoteCall) (st : State) : State :=
  {| snippets := snippets st; currentlyPlaying := currentlyPlaying st;
     saving := saving st; useLocalStorage := useLocalStorage st;
     audioRefs := audioRefs st; supabase := supabase st;
     localStorage := localStorage st; remoteCalls := remoteCalls st ++ [c];
     effectDue := effectDue st |}.

(** The render that follows a state change, with the effect of lines
    127-131: when [snippets] or [useLocalStorage] has changed, the flag is
    set and the collection is not empty, the collection is written to
    local storage. *)
Definition commit (st : State) : State :=
  let st' :=
    if effectDue st && useLocalStorage st && (0 <? length (snippets st))%nat
    then setItem (snippets st) st else st in
  {| snippets := snippets st'; currentlyPlaying := currentlyPlaying st';
     saving := saving st'; useLocalStorage := useLocalStorage st';
     audioRefs := audioRefs st'; supabase := supabase st';
     localStorage := localStorage st'; remoteCalls := remoteCalls st';
     effectDue := false |}.

(** What a handler sees of the state: the constants of the render in which
    it was created. A handler keeps them across its [await]s. *)
Record Render := {
  r_snippets : list MusicSnippet;
  r_currentlyPlaying : option string;
  r_useLocalStorage : bool;
  r_supabase : bool
}.

Definition render (st : State) : Render :=
  {| r_snippets := snippets st; r_currentlyPlaying := currentlyPlaying st;
     r_useLocalStorage := useLocalStorage st; r_supabase := supabase st |}.

(** The two persistence modes of the specification. *)
Inductive Mode := RemoteMode | LocalMode.

Definition mode (st : State) : Mode :=
  if supabase st && negb (useLocalStorage st) then RemoteMode else LocalMode.

(** ** Asynchronous handlers

    An [async] function is a chain of synchronous segments separated by
    [await]s. [Ret seg] runs [seg] and is finished; [Remote seg call k]
    runs [seg], sends [call] to the table and resumes with [k ok] once the
    answer is there ([ok] is false when the answer carries an error or the
    request is rejected); [Fetch seg q k] does the same for a title
    lookup, whose answer is the title of the payload, if any. The state a
    segment is applied to is the one current when the segment starts. *)
Inductive Proc :=
| Ret (seg : State -> State)
| Remote (seg : State -> State) (call : RemoteCall) (k : bool -> Proc)
| Fetch (seg : State -> State) (q : Lookup) (k : option string -> Proc).

Definition skip : Proc := Ret (fun st => st).

Definition after (seg : State -> State) (q : Proc) : Proc :=
  match q with
  | Ret seg' => Ret (fun st => seg' (seg st))
  | Remote seg' call k => Remote (fun st => seg' (seg st)) call k
  | Fetch seg' q' k => Fetch (fun st => seg' (seg st)) q' k
  end.

(** [await p; q] *)
Fixpoint andThen (p q : Proc) : Proc :=
  match p with
  | Ret seg => after seg q
  | Remote seg call k => Remote seg call (fun ok => andThen (k ok) q)
  | Fetch seg q' k => Fetch seg q' (fun title => andThen (k title) q)
  end.

(** ** Handlers *)

(** A string used as a condition: the empty string is false. *)
Definition truthy (s : string) : bool := negb (String.eqb s "").

(** [a || b] on strings *)
Definition orElse (a b : string) : string := if truthy a then a else b.

(** [currentlyPlaying === id] *)
Definition isPlaying (cp : option string) (id : string) : bool :=
  match cp with
  | Some p => String.eqb p id
  | None => false
  end.

(** [snippets.map((s) => (s.id === snippet.id ? snippet : s))] *)
Definition replaceById (snippet : MusicSnippet) (l : list MusicSnippet)
    : list MusicSnippet :=
  map (fun s => if hasId (Snippet.id snippet) s then snippet else s) l.

(** Lines 191-200: the rest of [saveSnippet] once the table has answered. *)
Definition saveSnippetAnswered (r : Render) (snippet : MusicSnippet) (ok : bool) : Proc :=
  Ret (fun st =>
    setSaving false
      (if ok then st
       else setUseLocalStorage true
              (setItem (replaceById snippet (r_snippets r)) st))).

(** Lines 168-201. The time stamp [updated_at] of the request is left out. *)
Definition saveSnippet (r : Render) (snippet : MusicSnippet) : Proc :=
  if negb (r_supabase r) then
    Ret (setItem (replaceById snippet (r_snippets r)))
  else
    Remote (setSaving true) (Upsert snippet) (saveSnippetAnswered r snippet).

(** Lines 204-214; [now] is [Date.now()]. *)
Definition newSnippet (now : Z) (r : Render) : MusicSnippet :=
  {| Snippet.id := Js.toString now;
     Snippet.song_name := "";
     Snippet.audio_type := "file";
     Snippet.audio_url := None;
     Snippet.spotify_url := "";
     Snippet.soundcloud_url := "";
     Snippet.start_time := "0:00";
     Snippet.notes := "";
     Snippet.position := JsNumber (Z.of_nat (length (r_snippets r))) |}.

(** Lines 203-218. *)
Definition addNewSnippet (now : Z) (r : Render) : Proc :=
  andThen (Ret (setSnippets (r_snippets r ++ [newSnippet now r])))
          (saveSnippet r (newSnippet now r)).

(** Lines 231-245: what [deleteSnippet] does once the table has answered. *)
Definition deleteLocally (r : Render) (id : string) (st : State) : State :=
  let updatedSnippets := List.filter (fun snippet => negb (hasId id snippet)) (r_snippets r) in
  let st1 := setSnippets updatedSnippets st in
  let st2 :=
    if negb (r_supabase r) || r_useLocalStorage r
    then setItem updatedSnippets st1 else st1 in
  let st3 :=
    match audioRefs st2 !! id with
    | Some audio => setAudioRefs (delete id (<[id := pause audio]> (audioRefs st2))) st2
    | None => st2
    end in
  if isPlaying (r_currentlyPlaying r) id then setCurrentlyPlaying None st3 else st3.

(** Lines 224-245: the rest of [deleteSnippet] once the table has answered. *)
Definition deleteSnippetAnswered (r : Render) (id : string) (ok : bool) : Proc :=
  Ret (fun st => deleteLocally r id (if ok then st else setUseLocalStorage true st)).

(** Lines 220-246. *)
Definition deleteSnippet (r : Render) (id : string) : Proc :=
  if r_supabase r then
    Remote (fun st => st) (DeleteById id) (deleteSnippetAnswered r id)
  else Ret (deleteLocally r id).

(** [const snippet = l.find((s) => s.id === id); if (snippet) await saveSnippet(snippet)] *)
Definition saveIfFound (r : Render) (id : string) (l : list MusicSnippet) : Proc :=
  match List.find (hasId id) l with
  | Some snippet => saveSnippet r snippet
  | None => skip
  end.

(** [snippets.map((snippet) => (snippet.id === id ? f(snippet) : snippet))] *)
Definition mapById (id : string) (f : MusicSnippet -> MusicSnippet)
    (l : list MusicSnippet) : list MusicSnippet :=
  map (fun snippet => if hasId id snippet then f snippet else snippet) l.

(** Lines 248-260. *)
Definition updateSnippet (r : Render) (id : string) (field : Field)
    (value : string) : Proc :=
  let updatedSnippets := mapById id (setField field value) (r_snippets r) in
  andThen (Ret (setSnippets updatedSnippets)) (saveIfFound r id updatedSnippets).

(** Lines 283-289. [refs] is [audioRefs.current] when the handler is
    called; [currentTime] counts whole seconds, which is all that
    [secondsToTime] keeps of it. *)
Definition getCurrentPlaybackTime (r : Render) (refs : gmap string Audio)
    (id : string) : Proc :=
  match refs !! id with
  | Some audio => updateSnippet r id F_start_time (secondsToTime (currentTime audio))
  | None => skip
  end.

(** Lines 323-336; [audioUrl] is the object URL of the file and
    [cleanedName] the result of [cleanFileName] on its name. *)
Definition handleFileUpload (r : Render) (id audioUrl cleanedName : string) : Proc :=
  let updatedSnippets :=
    mapById id (fun snippet =>
      setField F_song_name (orElse (Snippet.song_name snippet) cleanedName)
        (setField F_audio_url audioUrl snippet)) (r_snippets r) in
  andThen (Ret (setSnippets updatedSnippets)) (saveIfFound r id updatedSnippets).

(** Lines 297-321: [data.title || null], and [null] on any failure. The
    argument is the title of the payload of a successful answer. *)
Definition trackTitle (answer : option string) : option string :=
  match answer with
  | Some title => if truthy title then Some title else None
  | None => None
  end.

(** Lines 350-355 and 374-379. *)
Definition fillSongName (r : Render) (id trackInfo : string) : Proc :=
  let finalSnippets :=
    mapById id (fun s => setField F_song_name (orElse (Snippet.song_name s) trackInfo) s)
      (r_snippets r) in
  andThen (Ret (setSnippets finalSnippets)) (saveIfFound r id finalSnippets).

(** Lines 338-358. *)
Definition handleSpotifyUrlChange (r : Render) (id url : string) : Proc :=
  let updatedSnippets := mapById id (setField F_spotify_url url) (r_snippets r) in
  andThen (Ret (setSnippets updatedSnippets))
    (andThen (saveIfFound r id updatedSnippets)
       (if truthy url && Js.includes "spotify.com/track/" url then
          Fetch (fun st => st) (SpotifyOEmbed url) (fun answer =>
            match trackTitle answer with
            | Some trackInfo => fillSongName r id trackInfo
            | None => skip
            end)
        else skip)).

(** Lines 360-382. *)
Definition handleSoundCloudUrlChange (r : Render) (id url : string) : Proc :=
  let updatedSnippets := mapById id (setField F_soundcloud_url url) (r_snippets r) in
  andThen (Ret (setSnippets updatedSnippets))
    (andThen (saveIfFound r id updatedSnippets)
       (if truthy url && Js.includes "soundcloud.com/" url then
          Fetch (fun st => st) (SoundCloudOEmbed url) (fun answer =>
            match trackTitle answer with
            | Some trackInfo => fillSongName r id trackInfo
            | None => skip
            end)
        else skip)).

(** Lines 384-403. *)
Definition togglePlayPause (r : Render) (id : string) (st : State) : State :=
  match audioRefs st !! id, List.find (hasId id) (r_snippets r) with
  | Some audio, Some snippet =>
      if isPlaying (r_currentlyPlaying r) id then
        setCurrentlyPlaying None
          (setAudioRefs (<[id := pause audio]> (audioRefs st)) st)
      else
        let refs := pause <$> audioRefs st in
        let audio1 :=
          if String.eqb (Snippet.audio_type snippet) "file"
             && truthy (Snippet.start_time snippet)
             && negb (String.eqb (Snippet.start_time snippet) "0:00")
          then seek (timeToSeconds (Snippet.start_time snippet)) (pause audio)
          else pause audio in
        setCurrentlyPlaying (Some id)
          (setAudioRefs (<[id := play audio1]> refs) st)
  | _, _ => st
  end.

(** Lines 405-407. *)
Definition handleAudioEnded (id : string) (st : State) : State :=
  setCurrentlyPlaying None st.

(** Lines 661-666: the start-time input loses focus. *)
Definition startTimeBlur (r : Render) (id value : string) : Proc :=
  if negb (validateTimeFormat value) && negb (String.eqb value "")
  then updateSnippet r id F_start_time "0:00"
  else skip.

(** Lines 133-146, without the [loading] flag: the collection is read back
    from local storage. *)
Definition loadSnippetsFromLocalStorage (st : State) : State :=
  match localStorage st with
  | Some parsed => setSnippets parsed st
  | None => st
  end.

(** ** The event loop

    Between two events the component has rendered, so a handler starts
    from the render of the current state; the answers to its requests
    arrive as later events, in any order, and other events may come in
    between. *)

Inductive Pending :=
| AwaitRemote (k : bool -> Proc)
| AwaitLookup (k : option string -> Proc).

Record World := { state : State; inflight : list Pending }.

Inductive Event :=
| AddClicked (now : Z)
| FieldChanged (id : string) (field : Field) (value : string)
| StartTimeBlurred (id value : string)
| DeleteClicked (id : string)
| SpotifyUrlChanged (id url : string)
| SoundCloudUrlChanged (id url : string)
| FileChosen (id audioUrl cleanedName : string)
| PlayPauseClicked (id : string)
| CaptureTimeClicked (id : string)
| AudioEnded (id : string)
| AudioMounted (id : string)
| RemoteAnswered (n : nat) (ok : bool)
| LookupAnswered (n : nat) (answer : option string).

(** Runs the first segment of [p], renders, and parks what is left. *)
Definition dispatch (p : Proc) (w : World) : World :=
  match p with
  | Ret seg =>
      {| state := commit (seg (state w)); inflight := inflight w |}
  | Remote seg call k =>
      {| state := commit (send call (seg (state w)));
         inflight := inflight w ++ [AwaitRemote k] |}
  | Fetch seg _ k =>
      {| state := commit (seg (state w));
         inflight := inflight w ++ [AwaitLookup k] |}
  end.

Definition handler (e : Event) (st : State) : Proc :=
  let r := render st in
  match e with
  | AddClicked now => addNewSnippet now r
  | FieldChanged id field value => updateSnippet r id field value
  | StartTimeBlurred id value => startTimeBlur r id value
  | DeleteClicked id => deleteSnippet r id
  | SpotifyUrlChanged id url => handleSpotifyUrlChange r id url
  | SoundCloudUrlChanged id url => handleSoundCloudUrlChange r id url
  | FileChosen id audioUrl cleanedName => handleFileUpload r id audioUrl cleanedName
  | PlayPauseClicked id => Ret (togglePlayPause r id)
  | CaptureTimeClicked id => getCurrentPlaybackTime r (audioRefs st) id
  | AudioEnded id =>
      (* the element has stopped by itself before [onEnded] is called *)
      Ret (fun st' =>
        handleAudioEnded id (setAudioRefs (alter pause id (audioRefs st')) st'))
  | AudioMounted id =>
      (* the ref callback of lines 505-507 stores a new element *)
      Ret (fun st' =>
        setAudioRefs (<[id := {| paused := true; currentTime := 0 |}]> (audioRefs st')) st')
  | RemoteAnswered _ _ | LookupAnswered _ _ => skip
  end.

Definition step (e : Event) (w : World) : World :=
  match e with
  | RemoteAnswered n ok =>
      match inflight w !! n with
      | Some (AwaitRemote k) =>
          dispatch (k ok) {| state := state w; inflight := delete n (inflight w) |}
      | _ => w
      end
  | LookupAnswered n answer =>
      match inflight w !! n with
      | Some (AwaitLookup k) =>
          dispatch (k answer) {| state := state w; inflight := delete n (inflight w) |}
      | _ => w
      end
  | _ => dispatch (handler e (state w)) w
  end.

Definition run (es : list Event) (w : World) : World :=
  fold_left (fun w e => step e w) es w.

(** A handler that is left alone: every request it sends is answered, by
    [ok] and [title], before anything else happens. [exec] stops before
    the last render, [finish] includes it. *)
Fixpoint exec (ok : RemoteCall -> bool) (title : Lookup -> option string)
    (p : Proc) (st : State) : State :=
  match p with
  | Ret seg => seg st
  | Remote seg call k => exec ok title (k (ok call)) (commit (send call (seg st)))
  | Fetch seg q k => exec ok title (k (title q)) (commit (seg st))
  end.

Definition finish (ok : RemoteCall -> bool) (title : Lookup -> option string)
    (p : Proc) (st : State) : State :=
  commit (exec ok title p st).

Definition perform (ok : RemoteCall -> bool) (title : Lookup -> option string)
    (e : Event) (st : State) : State :=
  finish ok title (handler e st) st.

(** The answers that [finish] gives, as events for a handler parked at
    position [n]. *)
Fixpoint answers (ok : RemoteCall -> bool) (title : Lookup -> option string)
    (p : Proc) (n : nat) : list Event :=
  match p with
  | Ret _ => []
  | Remote _ call k => RemoteAnswered n (ok call) :: answers ok title (k (ok call)) n
  | Fetch _ q k => LookupAnswered n (title q) :: answers ok title (k (title q)) n
  end.

(** ** Sample sessions *)

(** The state once the collection [l] is loaded (lines 117-124): from the
    table when a client is configured; otherwise from local storage, with
    [useLocalStorage] set. *)
Definition session (client : bool) (l : list MusicSnippet) : State :=
  {| snippets := l; currentlyPlaying := None; saving := false;
     useLocalStorage := negb client; audioRefs := ∅; supabase := client;
     localStorage := if client then None else match l with [] => None | _ => Some l end;
     remoteCalls := []; effectDue := false |}.

Definition fresh (st : State) : World := {| state := st; inflight := [] |}.

Definition sampleSnippet (id name kind spotify : string) (pos : Z) : MusicSnippet :=
  {| Snippet.id := id; Snippet.song_name := name; Snippet.audio_type := kind;
     Snippet.audio_url := None; Snippet.spotify_url := spotify;
     Snippet.soundcloud_url := ""; Snippet.start_time := "0:00";
     Snippet.notes := ""; Snippet.position := JsNumber pos |}.

Definition sampleA : MusicSnippet := sampleSnippet "a" "Intro" "file" "" 0.
Definition sampleB : MusicSnippet := sampleSnippet "b" "Outro" "file" "" 1.
Definition sampleTrack : MusicSnippet := sampleSnippet "1" "" "spotify" "" 0.
Definition sampleSpotify : MusicSnippet :=
  sampleSnippet "7" "Riff" "spotify" "https://open.spotify.com/track/abc" 0.

Definition allOk (c : RemoteCall) : bool := true.
Definition allFail (c : RemoteCall) : bool := false.
Definition noTitle (q : Lookup) : option string := None.

(** A session with a client, in which the write of the first snippet has
    failed. *)
Definition afterFailedAdd : World :=
  run [AddClicked 1700000000000; RemoteAnswered 0 false] (fresh (session true [])).

(** A session without a client: the Spotify URL of the only snippet is
    pasted, and its name is typed before the lookup is answered. *)
Definition nameTypedDuringLookup : World :=
  run [SpotifyUrlChanged "1" "https://open.spotify.com/track/abc";
       FieldChanged "1" F_song_name "My Song"]
      (fresh (session false [sampleTrack])).

(** The SoundCloud URL is edited twice, each edit starting a lookup, and
    the first lookup is answered. *)
Definition firstOfTwoLookupsAnswered : World :=
  run [SoundCloudUrlChanged "1" "https://soundcloud.com/a/b";
       SoundCloudUrlChanged "1" "https://soundcloud.com/a/bc";
       LookupAnswered 0 (Some "First Title")]
      (fresh (session false [sampleTrack])).

(** ** Notions used in the statements *)





(** Every segment of a handler, whenever it runs, takes states that
    satisfy [I] to states that satisfy [I]. *)
Inductive Keeps (I : State -> Prop) : Proc -> Prop :=
| keeps_ret seg :
    (forall st, I st -> I (seg st)) -> Keeps I (Ret seg)
| keeps_remote seg call k :
    (forall st, I st -> I (seg st)) -> (forall ok, Keeps I (k ok)) ->
    Keeps I (Remote seg call k)
| keeps_fetch seg q k :
    (forall st, I st -> I (seg st)) -> (forall title, Keeps I (k title)) ->
    Keeps I (Fetch seg q k).


(** [I] does not look at what the persistence code changes besides the
    collection. *)
Record Bookkeeping (I : State -> Prop) : Prop := {
  bk_commit : forall st, I st -> I (commit st);
  bk_send : forall c st, I st -> I (send c st);
  bk_setItem : forall v st, I st -> I (setItem v st);
  bk_setSaving : forall v st, I st -> I (setSaving v st);
  bk_demote : forall st, I st -> I (setUseLocalStorage true st)
}.

Arguments bk_commit {I}.
Arguments bk_send {I}.
Arguments bk_setItem {I}.
Arguments bk_setSaving {I}.
Arguments bk_demote {I}.



(** The second of the two parts that [timeToSeconds] reads. *)
Definition secondsPart (timeStr : string) : Z :=
  match Js.split ":" timeStr with
  | [_; p1] => Js.orZero (Js.parseInt p1)
  | _ => 0
  end.

(** The normalisation that the round trip is stated up to: a minutes part
    of two digits that starts with a zero loses that zero. *)
Definition stripMinutesPadding (timeStr : string) : string :=
  match list_ascii_of_string timeStr with
  | a :: b :: c :: r =>
      if Ascii.eqb a "0" && Ascii.eqb c ":" then string_of_list_ascii (b :: c :: r)
      else timeStr
  | _ => timeStr
  end.

(** How many times the character occurs in the string. *)
Fixpoint occurrences (c : ascii) (s : string) : nat :=
  match s with
  | EmptyString => 0
  | String d r => (if Ascii.eqb d c then 1 else 0) + occurrences c r
  end.

Definition noColon (s : string) : Prop := ~ In ":"%char (list_ascii_of_string s).

Definition allDigits (s : string) : Prop :=
  Forall (fun c => Js.isDigit c = true) (list_ascii_of_string s).

Definition digitChars : list ascii :=
  ["0"; "1"; "2"; "3"; "4"; "5"; "6"; "7"; "8"; "9"]%char.

(** ** Numbers with a fraction (lines 272-276) *)


Module JsMath.

(** [Math.floor(x)] *)
Definition floor (x : Q) : Z := Qfloor x.

(** The integer part of [x], towards zero. *)
Definition trunc (x : Q) : Z := if Qle_bool 0 x then Qfloor x else Qceiling x.

(** [x % y]: the remainder takes the sign of the dividend. *)
Definition rem (x y : Q) : Q := (x - y * inject_Z (trunc (x / y)))%Q.

End JsMath.

Module Fractional.

(** Lines 272-276 on a number of seconds that may have a fraction, as
    [audio.currentTime] has. *)
Definition secondsToTime (seconds : Q) : string :=
  let mins := JsMath.floor (seconds / 60)%Q in
  let secs := JsMath.floor (JsMath.rem seconds 60%Q) in
  Js.toString mins ++ ":" ++ Js.padStart 2 "0" (Js.toString secs).

End Fractional.

(** ** Further primitives: trimming, case, URI encoding *)

Module JsText.

(** [[a-zA-Z0-9]] *)
Definition isAlnum (c : ascii) : bool :=
  let n := N_of_ascii c in
  Js.isDigit c || ((65 <=? n)%N && (n <=? 90)%N) || ((97 <=? n)%N && (n <=? 122)%N).

(** [\w] of a regular expression without flags: [[A-Za-z0-9_]]. *)
Definition isWord (c : ascii) : bool := isAlnum c || Ascii.eqb c "_".

(** [c.toUpperCase()] for a character matched by [\w]: the letters a to z
    become A to Z, digits and the underscore stay. *)
Definition upper (c : ascii) : ascii :=
  let n := N_of_ascii c in
  if (97 <=? n)%N && (n <=? 122)%N then ascii_of_N (n - 32) else c.

Fixpoint map (f : ascii -> ascii) (s : string) : string :=
  match s with
  | EmptyString => EmptyString
  | String c r => String (f c) (map f r)
  end.

Fixpoint forallb (f : ascii -> bool) (s : string) : bool :=
  match s with
  | EmptyString => true
  | String c r => f c && forallb f r
  end.

(** [s.trimEnd()] *)
Fixpoint trimEnd (s : string) : string :=
  match s with
  | EmptyString => EmptyString
  | String c r =>
      match trimEnd r with
      | EmptyString => if Js.isWhiteSpace c then EmptyString else String c EmptyString
      | r' => String c r'
      end
  end.

(** [s.trim()] *)
Definition trim (s : string) : string := trimEnd (Js.trimStart s).

(** The rest of [s] after the prefix [p], when [s] starts with [p]. *)
Fixpoint stripPrefix (p s : string) : option string :=
  match p, s with
  | EmptyString, _ => Some s
  | String a p', String b s' => if Ascii.eqb a b then stripPrefix p' s' else None
  | String _ _, EmptyString => None
  end.

(** The longest prefix of [s] made of characters that satisfy [f]. *)
Fixpoint takeWhile (f : ascii -> bool) (s : string) : string :=
  match s with
  | String c r => if f c then String c (takeWhile f r) else EmptyString
  | EmptyString => EmptyString
  end.

Definition hexDigit (n : N) : ascii :=
  if (n <? 10)%N then ascii_of_N (48 + n) else ascii_of_N (55 + n).

(** [%XX] for one byte. *)
Definition percent (byte : N) (rest : string) : string :=
  String "%" (String (hexDigit (byte / 16)) (String (hexDigit (byte mod 16)) rest)).

(** The characters that [encodeURIComponent] leaves as they are. *)
Definition isUnreserved (c : ascii) : bool :=
  isAlnum c
  || existsb (Ascii.eqb c) ["-"; "_"; "."; "!"; "~"; "*"; "'"; "("; ")"]%char.

(** [encodeURIComponent(s)]: every other code unit is replaced by the
    escapes of its UTF-8 bytes, one byte below 128 and two from 128 on. *)
Fixpoint encodeURIComponent (s : string) : string :=
  match s with
  | EmptyString => EmptyString
  | String c r =>
      let n := N_of_ascii c in
      if isUnreserved c then String c (encodeURIComponent r)
      else if (n <? 128)%N then percent n (encodeURIComponent r)
      else percent (192 + n / 64) (percent (128 + n mod 64) (encodeURIComponent r))
  end.

(** The characters that can stand in the result of [encodeURIComponent]. *)
Definition isUriSafe (c : ascii) : bool := isUnreserved c || Ascii.eqb c "%".

End JsText.

(** ** File names (lines 291-295) *)

(** Whether [/\.[^/.]+$/] matches at the start of [s]: a dot, then at
    least one character, none of them a slash or a dot, up to the end. *)
Definition extensionAt (s : string) : bool :=
  match s with
  | String c r =>
      Ascii.eqb c "." && negb (String.eqb r "")
      && JsText.forallb (fun d => negb (Ascii.eqb d "/" || Ascii.eqb d ".")) r
  | EmptyString => false
  end.

(** [fileName.replace(/\.[^/.]+$/, "")]: the leftmost match is removed. *)
Fixpoint dropExtension (s : string) : string :=
  if extensionAt s then EmptyString
  else match s with
       | EmptyString => EmptyString
       | String c r => String c (dropExtension r)
       end.

(** [[_\-.]] *)
Definition isSeparator (c : ascii) : bool :=
  Ascii.eqb c "_" || Ascii.eqb c "-" || Ascii.eqb c ".".

(** [.replace(/[_\-.]/g, " ")] *)
Definition spaceOut (c : ascii) : ascii :=
  if isSeparator c then " "%char else c.

(** [.replace(/\b\w/g, (l) => l.toUpperCase())]: a word character is
    replaced when no word character stands before it; [prevWord] tells
    whether one does. *)
Fixpoint capitalize (prevWord : bool) (s : string) : string :=
  match s with
  | EmptyString => EmptyString
  | String c r =>
      String (if JsText.isWord c && negb prevWord then JsText.upper c else c)
             (capitalize (JsText.isWord c) r)
  end.

Definition cleanFileName (fileName : string) : string :=
  let nameWithoutExt := dropExtension fileName in
  let cleaned := JsText.map spaceOut nameWithoutExt in
  capitalize false cleaned.

(** Lines 464-467 with 323-325: a file is chosen for the row [id];
    [audioUrl] is its object URL. *)
Definition fileChosen (id audioUrl fileName : string) : Event :=
  FileChosen id audioUrl (cleanFileName fileName).

(** ** Track ids and previews (lines 409-516) *)

(** The group of [/lit([a-zA-Z0-9]+)/] when the expression matches at the
    start of [s]. *)
Definition groupAt (lit s : string) : option string :=
  match JsText.stripPrefix lit s with
  | Some rest =>
      let g := JsText.takeWhile JsText.isAlnum rest in
      if truthy g then Some g else None
  | None => None
  end.

(** [s.match(/lit([a-zA-Z0-9]+)/)[1]], or [None] when there is no match:
    the start positions are tried from the left. *)
Fixpoint search (lit s : string) : option string :=
  match groupAt lit s with
  | Some g => Some g
  | None =>
      match s with
      | EmptyString => None
      | String _ r => search lit r
      end
  end.

(** Lines 409-421. *)
Definition extractSpotifyTrackId (url : string) : option string :=
  match search "track/" url with
  | Some g => Some g
  | None =>
      match search "spotify.com/track/" url with
      | Some g => Some g
      | None => search "open.spotify.com/track/" url
      end
  end.

(** Lines 27-63, the [src] of the frame. The function [timeToSeconds] of
    lines 33-41 and 72-80 is the one of lines 262-270. *)
Definition spotifyEmbedSrc (trackId startTime : string) : string :=
  let startTimeSeconds := timeToSeconds startTime in
  "https://open.spotify.com/embed/track/" ++ trackId ++ "?utm_source=generator&theme=0"
  ++ (if 0 <? startTimeSeconds then "&t=" ++ Js.toString startTimeSeconds else "").

Definition soundCloudOptions : string :=
  "&color=%23ff5500&auto_play=false&hide_related=false&show_comments=true&show_user=true&show_reposts=false&show_teaser=true&visual=true".

(** Lines 66-104, the [src] of the frame. *)
Definition soundCloudEmbedSrc (url startTime : string) : string :=
  let startTimeSeconds := timeToSeconds startTime in
  let normalizedUrl := JsText.trim url in
  "https://w.soundcloud.com/player/?url=" ++ JsText.encodeURIComponent normalizedUrl
  ++ soundCloudOptions
  ++ (if 0 <? startTimeSeconds then "#t=" ++ Js.toString startTimeSeconds else "").

(** Lines 297-321: the address that the title lookup fetches. *)
Definition requestUrl (q : Lookup) : string :=
  match q with
  | SpotifyOEmbed url =>
      "https://open.spotify.com/oembed?url=" ++ JsText.encodeURIComponent url
  | SoundCloudOEmbed url =>
      "https://soundcloud.com/oembed?url=" ++ JsText.encodeURIComponent url ++ "&format=json"
  end.

(** What [renderAudioContent] puts into the cell: a frame with its [src],
    a hint, or the controls of an uploaded file (whether the play button
    is there, whether it shows the pause icon, whether the clock button is
    there). *)
Inductive View :=
| Frame (src : string)
| Hint (text : string)
| Controls (playButton pauseIcon clockButton : bool).

(** Lines 423-516. *)
Definition renderAudioContent (r : Render) (snippet : MusicSnippet) : View :=
  if String.eqb (Snippet.audio_type snippet) "spotify" then
    match extractSpotifyTrackId (Snippet.spotify_url snippet) with
    | Some spotifyTrackId =>
        if truthy spotifyTrackId && truthy (JsText.trim (Snippet.spotify_url snippet))
        then Frame (spotifyEmbedSrc spotifyTrackId (Snippet.start_time snippet))
        else Hint (if truthy (Snippet.spotify_url snippet)
                   then "Invalid Spotify URL format"
                   else "Paste Spotify URL above to see preview")
    | None =>
        Hint (if truthy (Snippet.spotify_url snippet)
              then "Invalid Spotify URL format"
              else "Paste Spotify URL above to see preview")
    end
  else if String.eqb (Snippet.audio_type snippet) "soundcloud" then
    if truthy (Snippet.soundcloud_url snippet)
       && truthy (JsText.trim (Snippet.soundcloud_url snippet))
       && Js.includes "soundcloud.com" (Snippet.soundcloud_url snippet)
    then Frame (soundCloudEmbedSrc (Snippet.soundcloud_url snippet) (Snippet.start_time snippet))
    else Hint (if truthy (Snippet.soundcloud_url snippet)
                  && negb (Js.includes "soundcloud.com" (Snippet.soundcloud_url snippet))
               then "Invalid SoundCloud URL - please use a link from soundcloud.com"
               else "Paste SoundCloud URL above to see preview")
  else
    let hasAudio :=
      match Snippet.audio_url snippet with
      | Some u => truthy u
      | None => false
      end in
    let current := isPlaying (r_currentlyPlaying r) (Snippet.id snippet) in
    Controls hasAudio (hasAudio && current) (hasAudio && current).

Definition spotifySample : MusicSnippet :=
  setField F_spotify_url "https://open.spotify.com/track/4uLU6hMCjMI75M1A2tKUQC?si=abc"
    (setField F_audio_type "spotify" (newSnippet 1700000000000 (render (session false [])))).

Definition soundCloudSample : MusicSnippet :=
  setField F_soundcloud_url "https://soundcloud.com/artist/song"
    (setField F_start_time "1:30"
       (setField F_audio_type "soundcloud" (newSnippet 1700000000000 (render (session false []))))).

(** ** Loading on mount (lines 107-166) *)

(** The answer of the table to the [select]: the rows, which may be
    [null], or an error. *)
Inductive SelectAnswer :=
| Rows (data : option (list MusicSnippet))
| SelectFailed.

(** The state of the first render, for a browser that holds [stored]
    under the key. *)
Definition initialState (client : bool) (stored : option (list MusicSnippet)) : State :=
  {| snippets := []; currentlyPlaying := None; saving := false;
     useLocalStorage := false; audioRefs := ∅; supabase := client;
     localStorage := stored; remoteCalls := []; effectDue := false |}.

(** Lines 148-166, once the table has answered; the [loading] flag is
    left out. *)
Definition loadSnippetsFromDatabase (answer : SelectAnswer) (st : State) : State :=
  if negb (supabase st) then st
  else match answer with
       | Rows data => setSnippets (match data with Some l => l | None => [] end) st
       | SelectFailed => setUseLocalStorage true (loadSnippetsFromLocalStorage st)
       end.

(** Lines 117-124: the state changes of the mount effect, before the
    render that follows them. *)
Definition mounting (answer : SelectAnswer) (st : State) : State :=
  if supabase st then loadSnippetsFromDatabase answer st
  else setUseLocalStorage true (loadSnippetsFromLocalStorage st).

(** Whether the effect of lines 127-131 calls [setItem] at the render
    that follows the state [st]. *)
Definition effectWrites (st : State) : bool :=
  effectDue st && useLocalStorage st && (0 <? length (snippets st))%nat.

(** Lines 117-124 with the render that follows. Nothing else can happen
    before the answer: the page shows the spinner of lines 534-544. *)
Definition mount (answer : SelectAnswer) (st : State) : State :=
  commit (mounting answer st).

(** Opening the page again in the same browser. *)
Definition reopen (answer : SelectAnswer) (st : State) : State :=
  mount answer (initialState (supabase st) (localStorage st)).

(** The page once it has loaded. *)
Definition opened (client : bool) (stored : option (list MusicSnippet))
    (answer : SelectAnswer) : World :=
  fresh (mount answer (initialState client stored)).

(** A session without a client: a snippet is added, a Spotify URL is
    pasted into it, its name is typed, the lookup answers, a second snippet
    is added and the first one deleted. *)
Definition localSample : list Event :=
  [AddClicked 1700000000000;
   SpotifyUrlChanged "1700000000000" "https://open.spotify.com/track/abc";
   FieldChanged "1700000000000" F_song_name "Riff";
   LookupAnswered 0 (Some "Fetched Title");
   AddClicked 1700000000001;
   DeleteClicked "1700000000000"].

(** A row with an uploaded file and its audio element, paused at second
    12; the start time of the row is 1:30. *)
Definition playableSession : State :=
  setAudioRefs {[ "a" := {| paused := true; currentTime := 12 |} ]}
    (session false [setField F_start_time "1:30" sampleA]).

(** ** The client ([lib/supabase]) *)

Section Client.

(** The client of the library and its constructor. *)
Variable Client : Type.
Variable createClient : string -> string -> Client.

(** The two settings of the environment; [None] when a setting is not
    there. *)
Record Env := { supabaseUrl : option string; supabaseKey : option string }.

(** [!v] on a setting *)
Definition unset (v : option string) : bool :=
  match v with
  | Some s => negb (truthy s)
  | None => true
  end.

(** [getSupabase()]: the result and the new value of [supabaseInstance]. *)
Definition getSupabase (env : Env) (supabaseInstance : option Client)
    : option Client * option Client :=
  match supabaseInstance with
  | Some c => (Some c, Some c)
  | None =>
      if unset (supabaseUrl env) || unset (supabaseKey env) then (None, None)
      else
        let c := createClient (match supabaseUrl env with Some u => u | None => "" end)
                              (match supabaseKey env with Some k => k | None => "" end) in
        (Some c, Some c)
  end.

(** The results of a series of calls, each with the environment of its
    time. *)
Fixpoint getSupabaseCalls (envs : list Env) (supabaseInstance : option Client)
    : list (option Client) :=
  match envs with
  | [] => []
  | env :: rest =>
      let '(result, inst) := getSupabase env supabaseInstance in
      result :: getSupabaseCalls rest inst
  end.

End Client.

(** ** Further notions used in the statements *)

(** The first segment of a handler takes a state that satisfies [Q] to one
    that satisfies [P] once the component has rendered, and so does every
    later segment from a state that satisfies [P]. *)
Inductive Settles (Q P : State -> Prop) : Proc -> Prop :=
| settles_ret seg :
    (forall st, Q st -> P (commit (seg st))) -> Settles Q P (Ret seg)
| settles_remote seg call k :
    (forall st, Q st -> P (commit (send call (seg st)))) ->
    (forall ok, Settles P P (k ok)) ->
    Settles Q P (Remote seg call k)
| settles_fetch seg q k :
    (forall st, Q st -> P (commit (seg st))) ->
    (forall answer, Settles P P (k answer)) ->
    Settles Q P (Fetch seg q k).

Definition SettlesPending (P : State -> Prop) (p : Pending) : Prop :=
  match p with
  | AwaitRemote k => forall ok, Settles P P (k ok)
  | AwaitLookup k => forall answer, Settles P P (k answer)
  end.

(** The events that come from a row are about a row of the page. *)
Definition onRow (e : Event) (st : State) : bool :=
  match e with
  | FieldChanged id _ _ | StartTimeBlurred id _ | DeleteClicked id
  | SpotifyUrlChanged id _ | SoundCloudUrlChanged id _ | FileChosen id _ _
  | PlayPauseClicked id | CaptureTimeClicked id =>
      existsb (hasId id) (snippets st)
  | _ => true
  end.

(** Every event of the run is about a row of the page at its time. *)
Fixpoint onRows (es : list Event) (w : World) : Prop :=
  match es with
  | [] => True
  | e :: rest => onRow e (state w) = true /\ onRows rest (step e w)
  end.

(** What a page opened in the same browser without a client would show. *)
Definition stored (st : State) : list MusicSnippet :=
  match localStorage st with
  | Some l => l
  | None => []
  end.

(** A session without a client: the flag is set, nothing has been sent to
    the table, and local storage holds the collection. *)
Definition LocalOnly (st : State) : Prop :=
  supabase st = false /\ useLocalStorage st = true /\ remoteCalls st = []
  /\ stored st = snippets st.

(** The same before the render: the collection has just been set to the
    non-empty [l]. *)
Definition Staged (l : list MusicSnippet) (st : State) : Prop :=
  supabase st = false /\ useLocalStorage st = true /\ remoteCalls st = []
  /\ effectDue st = true /\ snippets st = l /\ l <> [].

(** Every segment of a handler keeps [I], as far as the handler gets while
    the table answers its requests without an error. *)
Inductive KeepsWhenOk (I : State -> Prop) : Proc -> Prop :=
| kwo_ret seg :
    (forall st, I st -> I (seg st)) -> KeepsWhenOk I (Ret seg)
| kwo_remote seg call k :
    (forall st, I st -> I (seg st)) -> KeepsWhenOk I (k true) ->
    KeepsWhenOk I (Remote seg call k)
| kwo_fetch seg q k :
    (forall st, I st -> I (seg st)) -> (forall title, KeepsWhenOk I (k title)) ->
    KeepsWhenOk I (Fetch seg q k).

Definition KeepsPendingWhenOk (I : State -> Prop) (p : Pending) : Prop :=
  match p with
  | AwaitRemote k => KeepsWhenOk I (k true)
  | AwaitLookup k => forall title, KeepsWhenOk I (k title)
  end.

(** The event is not the answer to a request that has failed. *)
Definition succeeds (e : Event) : bool :=
  match e with
  | RemoteAnswered _ ok => ok
  | _ => true
  end.

(** A session in Remote mode whose local storage holds [blob]. *)
Definition RemoteOnly (blob : option (list MusicSnippet)) (st : State) : Prop :=
  supabase st = true /\ useLocalStorage st = false /\ localStorage st = blob.

(** A session with a client: two snippets are added and edited, one is
    played and deleted, and every request is answered without an error. *)
Definition remoteSample : list Event :=
  [AddClicked 1700000000000; RemoteAnswered 0 true;
   FieldChanged "1700000000000" F_song_name "Riff";
   AddClicked 1700000000001; RemoteAnswered 1 true; RemoteAnswered 0 true;
   AudioMounted "1700000000000"; PlayPauseClicked "1700000000000";
   DeleteClicked "1700000000000"; RemoteAnswered 0 true].





(** * Proof steps used throughout *)

(** Goes through the ten values of a decimal digit [d] known to lie
    between 0 and 9. *)
Ltac each_digit d :=
  let Hd := fresh "Hd" in
  assert (Hd : d = 0 \/ d = 1 \/ d = 2 \/ d = 3 \/ d = 4 \/ d = 5 \/ d = 6
               \/ d = 7 \/ d = 8 \/ d = 9) by lia;
  repeat (destruct Hd as [-> | Hd]); try subst d.

(** Goes through the branches of the conditionals of the goal. *)
Ltac each_branch :=
  repeat match goal with
         | |- context [if ?b then _ else _] => destruct b
         | |- context [match ?o with Some _ => _ | None => _ end] => destruct o
         end.

(** A field that the render leaves as it is. *)
Ltac commit_field := unfold commit; destruct (_ && _ && _); reflexivity.

(** * Checks on sample inputs *)

Example ex_parse_1 : timeToSeconds "2:05" = 125. Proof. reflexivity. Qed.
Example ex_parse_2 : timeToSeconds "bad" = 0. Proof. reflexivity. Qed.
Example ex_fmt_1 : secondsToTime 125 = "2:05". Proof. reflexivity. Qed.
Example ex_fmt_2 : secondsToTime 59 = "0:59". Proof. reflexivity. Qed.
Example ex_fmt_3 : secondsToTime 6000 = "100:00". Proof. reflexivity. Qed.
Example ex_fmt_4 : secondsToTime (-270) = "-5:-30". Proof. reflexivity. Qed.
Example ex_val_1 : validateTimeFormat "1:30" = true. Proof. reflexivity. Qed.
Example ex_val_2 : validateTimeFormat "130" = false. Proof. reflexivity. Qed.
Example ex_val_3 : validateTimeFormat "1:3" = false. Proof. reflexivity. Qed.
Example ex_parse_3 : timeToSeconds " 0x10: +7abc" = 16 * 60 + 7. Proof. reflexivity. Qed.
Example ex_parse_4 : timeToSeconds "1:2:3" = 0. Proof. reflexivity. Qed.
Example ex_run_1 :
  map Snippet.song_name
    (snippets (state (run [AddClicked 1700000000000;
                           FieldChanged "1700000000000" F_song_name "Riff Idea"]
                          (fresh (session false [])))))
  = ["Riff Idea"].
Proof. vm_compute. reflexivity. Qed.
Example ex_run_2 :
  localStorage (state (run [AddClicked 1700000000000;
                            FieldChanged "1700000000000" F_song_name "Riff Idea"]
                           (fresh (session false []))))
  = Some (snippets (state (run [AddClicked 1700000000000;
                                FieldChanged "1700000000000" F_song_name "Riff Idea"]
                               (fresh (session false []))))).
Proof. vm_compute. reflexivity. Qed.

(** * Properties of the JavaScript primitives *)

Section Digits.

Lemma isDigit_cases (c : ascii) : Js.isDigit c = true -> In c digitChars.
Proof.
  destruct c as [[] [] [] [] [] [] [] []]; vm_compute; intros H;
    first [discriminate H | tauto].
Qed.

Lemma digitChar_cases (d : Z) :
  0 <= d < 10 -> In (Js.digitChar d) digitChars /\ Js.decVal (Js.digitChar d) = Some d.
Proof.
  intros H.
  each_digit d; vm_compute; tauto.
Qed.

Lemma decVal_digit (c : ascii) :
  Js.isDigit c = true -> exists d, 0 <= d < 10 /\ Js.decVal c = Some d /\ c = Js.digitChar d.
Proof.
  intros H. apply isDigit_cases in H. simpl in H.
  repeat (destruct H as [<- | H]); try contradiction.
  all: eexists; split; [| split; [vm_compute; reflexivity | vm_compute; reflexivity]]; lia.
Qed.

End Digits.

Section Split.

Lemma split_nonempty sep s : Js.split sep s <> [].
Proof.
  destruct s as [|c r]; simpl; [easy|].
  destruct (Ascii.eqb c sep); [easy|]. destruct (Js.split sep r); easy.
Qed.


Lemma split_noColon s : noColon s -> Js.split ":" s = [s].
Proof.
  unfold noColon. induction s as [|c r IH]; simpl; intros H; [reflexivity|].
  destruct (Ascii.eqb_spec c ":") as [->|Hc]; [tauto|].
  rewrite IH by tauto. reflexivity.
Qed.

Lemma split_app_colon a b :
  noColon a -> Js.split ":" (a ++ String ":" b) = a :: Js.split ":" b.
Proof.
  unfold noColon. induction a as [|c r IH]; simpl; intros H; [reflexivity|].
  destruct (Ascii.eqb_spec c ":") as [->|Hc]; [tauto|].
  rewrite IH by tauto. reflexivity.
Qed.

End Split.

Section Decimal.

Lemma allDigits_noColon s : allDigits s -> noColon s.
Proof.
  unfold allDigits, noColon. rewrite List.Forall_forall. intros H Hin.
  apply H in Hin. discriminate Hin.
Qed.

Lemma isDigit_digitChar d : 0 <= d < 10 -> Js.isDigit (Js.digitChar d) = true.
Proof.
  intros H. destruct (digitChar_cases d H) as [Hin _].
  simpl in Hin. repeat (destruct Hin as [<- | Hin]); try contradiction; reflexivity.
Qed.

Lemma digitsOf_allDigits fuel : forall n acc,
  0 <= n -> allDigits acc -> allDigits (Js.digitsOf fuel n acc).
Proof.
  induction fuel as [|f IH]; intros n acc Hn Hacc; simpl; [exact Hacc|].
  assert (Hd : allDigits (String (Js.digitChar (n mod 10)) acc)).
  { constructor; [|exact Hacc]. apply isDigit_digitChar. apply Z.mod_pos_bound. lia. }
  destruct (n <? 10); [exact Hd|]. apply IH; [|exact Hd]. apply Z.div_pos; lia.
Qed.

Lemma digitsOf_length_ge fuel : forall n acc,
  (String.length acc <= String.length (Js.digitsOf fuel n acc))%nat.
Proof.
  induction fuel as [|f IH]; intros n acc; simpl; [lia|].
  destruct (n <? 10); simpl; [lia|].
  etransitivity; [|apply IH]. simpl. lia.
Qed.

Lemma digitsOf_S f n acc :
  Js.digitsOf (S f) n acc
  = if n <? 10 then String (Js.digitChar (n mod 10)) acc
    else Js.digitsOf f (n / 10) (String (Js.digitChar (n mod 10)) acc).
Proof. reflexivity. Qed.

(** Reading back the digits that [digitsOf] wrote gives the number. *)
Lemma parseDigits_digitsOf f : forall n acc,
  0 <= n < 2 ^ Z.of_nat (S f) ->
  Js.parseDigits 10 Js.decVal (Js.digitsOf (S f) n acc) None
  = Js.parseDigits 10 Js.decVal acc (Some n).
Proof.
  induction f as [|f IH]; intros n acc Hn.
  - change (2 ^ Z.of_nat 1) with 2 in Hn.
    simpl. destruct (Z.ltb_spec n 10) as [_|]; [|lia].
    rewrite Z.mod_small by lia. simpl.
    destruct (digitChar_cases n) as [_ ->]; [lia|]. simpl. reflexivity.
  - rewrite digitsOf_S. destruct (Z.ltb_spec n 10) as [Hlt|Hge].
    + rewrite Z.mod_small by lia. simpl.
      destruct (digitChar_cases n) as [_ ->]; [lia|]. simpl. reflexivity.
    + rewrite IH.
      * simpl. destruct (digitChar_cases (n mod 10)) as [_ ->];
          [apply Z.mod_pos_bound; lia|].
        simpl. do 2 f_equal. pose proof (Z.div_mod n 10). lia.
      * rewrite Nat2Z.inj_succ, Z.pow_succ_r in Hn by lia.
        split; [apply Z.div_pos; lia|].
        apply Z.div_lt_upper_bound; lia.
Qed.

Lemma toString_fuel m : 0 <= m -> m < 2 ^ Z.of_nat (S (Z.to_nat (Z.log2 m))).
Proof.
  intros Hm. rewrite Nat2Z.inj_succ, Z2Nat.id by apply Z.log2_nonneg.
  destruct (Z.eq_dec m 0) as [->|Hne]; [reflexivity|].
  apply Z.log2_spec. lia.
Qed.

(** A non-empty string of decimal digits is read in radix 10, from its
    first character on. *)
Lemma option_map_mul_1 (o : option Z) : option_map (Z.mul 1) o = o.
Proof. destruct o as [z|]; [|reflexivity]. simpl. f_equal. destruct z; reflexivity. Qed.

(** A digit is none of the characters that [parseInt] treats specially. *)
Lemma digit_plain c :
  Js.isDigit c = true ->
  Js.isWhiteSpace c = false /\ Ascii.eqb c "-" = false /\ Ascii.eqb c "+" = false
  /\ Ascii.eqb c "x" = false /\ Ascii.eqb c "X" = false /\ Ascii.eqb c ":" = false.
Proof.
  intros H. apply isDigit_cases in H. simpl in H.
  repeat (destruct H as [<- | H]); try contradiction; repeat split; reflexivity.
Qed.

(** A string that starts with two decimal digits has no [0x] prefix. *)
Lemma parseInt_unsigned c r :
  Js.isDigit c = true -> (forall c2 r2, r = String c2 r2 -> Js.isDigit c2 = true) ->
  Js.parseInt (String c r) = Js.parseDigits 10 Js.decVal (String c r) None.
Proof.
  intros Hc Hr. destruct (digit_plain c Hc) as (Hw & Hm & Hp & _).
  unfold Js.parseInt. cbn [Js.trimStart]. rewrite Hw, Hm, Hp.
  destruct r as [|c2 r2].
  - apply option_map_mul_1.
  - destruct (digit_plain c2 (Hr c2 r2 eq_refl)) as (_ & _ & _ & Hx & HX & _).
    rewrite Hx, HX, andb_false_r. apply option_map_mul_1.
Qed.

Lemma parseInt_allDigits s :
  s <> "" -> allDigits s -> Js.parseInt s = Js.parseDigits 10 Js.decVal s None.
Proof.
  destruct s as [|c r]; [easy|]. intros _ H.
  inversion H as [|? ? Hc Hr]; subst.
  apply parseInt_unsigned; [exact Hc|].
  intros c2 r2 ->. inversion Hr; assumption.
Qed.

Lemma parseInt_negative s :
  s <> "" -> allDigits s ->
  Js.parseInt (String "-" s) = option_map Z.opp (Js.parseDigits 10 Js.decVal s None).
Proof.
  intros Hne H. pose proof (parseInt_allDigits s Hne H) as Hp.
  destruct s as [|c r]; [easy|].
  inversion H as [|? ? Hc Hr]; subst.
  destruct (digit_plain c Hc) as (Hw & Hm & Hpl & _).
  unfold Js.parseInt in Hp |- *. cbn [Js.trimStart] in Hp |- *.
  change (Js.isWhiteSpace "-") with false. cbv iota.
  change (Ascii.eqb "-" "-") with true. cbv iota.
  rewrite Hw, Hm, Hpl in Hp.
  rewrite option_map_mul_1 in Hp. rewrite Hp.
  destruct (Js.parseDigits 10 Js.decVal (String c r) None) as [z|]; [|reflexivity].
  simpl. f_equal; destruct z; reflexivity.
Qed.

Lemma digitsOf_nonempty f n acc : Js.digitsOf (S f) n acc <> "".
Proof.
  intros H. pose proof (digitsOf_length_ge f (n / 10) (String (Js.digitChar (n mod 10)) acc)) as Hl.
  simpl in H. destruct (n <? 10); [discriminate H|].
  rewrite H in Hl. simpl in Hl. lia.
Qed.

Lemma parseInt_digitsOf m :
  0 <= m ->
  Js.parseInt (Js.digitsOf (S (Z.to_nat (Z.log2 m))) m "") = Some m.
Proof.
  intros Hm. rewrite parseInt_allDigits.
  - rewrite parseDigits_digitsOf; [reflexivity|]. split; [exact Hm|]. apply toString_fuel, Hm.
  - apply digitsOf_nonempty.
  - apply digitsOf_allDigits; [exact Hm | constructor].
Qed.

Lemma parseInt_toString n : Js.parseInt (Js.toString n) = Some n.
Proof.
  unfold Js.toString. destruct (Z.ltb_spec n 0) as [Hneg|Hpos].
  - rewrite parseInt_negative.
    + rewrite parseDigits_digitsOf by (split; [lia | apply toString_fuel; lia]).
      simpl. f_equal. lia.
    + apply digitsOf_nonempty.
    + apply digitsOf_allDigits; [lia | constructor].
  - rewrite Z.abs_eq by lia. apply parseInt_digitsOf. lia.
Qed.

End Decimal.

Section SmallNumbers.

Lemma toString_digit m : 0 <= m < 10 -> Js.toString m = String (Js.digitChar m) "".
Proof.
  intros H. unfold Js.toString. destruct (Z.ltb_spec m 0); [lia|].
  rewrite Z.abs_eq by lia. rewrite digitsOf_S.
  destruct (Z.ltb_spec m 10); [|lia]. rewrite Z.mod_small by lia. reflexivity.
Qed.

Lemma log2_ge_3 m : 10 <= m -> exists f, Z.to_nat (Z.log2 m) = S (S (S f)).
Proof.
  intros H. assert (3 <= Z.log2 m) by (apply (Z.log2_le_mono 8 m); lia).
  exists (Z.to_nat (Z.log2 m) - 3)%nat. lia.
Qed.

Lemma toString_two_digits m :
  10 <= m < 100 ->
  Js.toString m = String (Js.digitChar (m / 10)) (String (Js.digitChar (m mod 10)) "").
Proof.
  intros H. unfold Js.toString. destruct (Z.ltb_spec m 0); [lia|].
  rewrite Z.abs_eq by lia. destruct (log2_ge_3 m) as [f ->]; [lia|].
  rewrite digitsOf_S. destruct (Z.ltb_spec m 10); [lia|].
  rewrite digitsOf_S. destruct (Z.ltb_spec (m / 10) 10) as [_|Hge].
  - rewrite (Z.mod_small (m / 10)); [reflexivity|].
    split; [apply Z.div_pos; lia | apply Z.div_lt_upper_bound; lia].
  - exfalso. assert (m / 10 < 10) by (apply Z.div_lt_upper_bound; lia). lia.
Qed.

Lemma toString_length_3 m : 100 <= m -> (3 <= String.length (Js.toString m))%nat.
Proof.
  intros H. unfold Js.toString. destruct (Z.ltb_spec m 0); [lia|].
  rewrite Z.abs_eq by lia. destruct (log2_ge_3 m) as [f ->]; [lia|].
  rewrite digitsOf_S. destruct (Z.ltb_spec m 10); [lia|].
  rewrite digitsOf_S. destruct (Z.ltb_spec (m / 10) 10) as [Hlt|_].
  - exfalso. assert (10 <= m / 10) by (apply Z.div_le_lower_bound; lia). lia.
  - rewrite digitsOf_S. destruct (_ <? 10); [simpl; lia|].
    etransitivity; [|apply digitsOf_length_ge]. simpl. lia.
Qed.

End SmallNumbers.

Section TimeCodec.

Lemma string_length_app (a b : string) :
  String.length (a ++ b) = (String.length a + String.length b)%nat.
Proof. induction a as [|c a IH]; simpl; [reflexivity|]. rewrite IH. reflexivity. Qed.

Lemma validate_length s : validateTimeFormat s = true -> (String.length s <= 5)%nat.
Proof.
  unfold validateTimeFormat.
  destruct s as [|a [|b [|c [|d [|e [|f r]]]]]]; simpl; try discriminate; lia.
Qed.

Lemma validate_shape s :
  validateTimeFormat s = true ->
  (exists a x y, s = String a (String ":" (String x (String y "")))
     /\ Js.isDigit a = true /\ Js.isDigit x = true /\ Js.isDigit y = true)
  \/ (exists a b x y, s = String a (String b (String ":" (String x (String y ""))))
     /\ Js.isDigit a = true /\ Js.isDigit b = true
     /\ Js.isDigit x = true /\ Js.isDigit y = true).
Proof.
  unfold validateTimeFormat.
  destruct s as [|a [|b [|c [|d [|e [|f r]]]]]]; simpl; try discriminate.
  - intros H. repeat rewrite andb_true_iff in H.
    destruct H as [[[Ha Hb] Hc] Hd]. apply Ascii.eqb_eq in Hb. subst b.
    left. exists a, c, d. tauto.
  - intros H. repeat rewrite andb_true_iff in H.
    destruct H as [[[[Ha Hb] Hc] Hd] He]. apply Ascii.eqb_eq in Hc. subst c.
    right. exists a, b, d, e. tauto.
Qed.

End TimeCodec.

Section RoundTrip.

Lemma noColon_digits1 a : Js.isDigit a = true -> noColon (String a "").
Proof. intros H. apply allDigits_noColon. repeat constructor. exact H. Qed.

Lemma noColon_digits2 a b :
  Js.isDigit a = true -> Js.isDigit b = true -> noColon (String a (String b "")).
Proof. intros Ha Hb. apply allDigits_noColon. repeat constructor; assumption. Qed.

Lemma parseInt_digit1 a :
  0 <= a < 10 -> Js.parseInt (String (Js.digitChar a) "") = Some a.
Proof. intros H. rewrite <- toString_digit by exact H. apply parseInt_toString. Qed.

Lemma parseInt_digit2 a b :
  0 <= a < 10 -> 0 <= b < 10 ->
  Js.parseInt (String (Js.digitChar a) (String (Js.digitChar b) "")) = Some (10 * a + b).
Proof.
  intros Ha Hb. rewrite parseInt_allDigits.
  - simpl. destruct (digitChar_cases a Ha) as [_ ->]. simpl.
    destruct (digitChar_cases b Hb) as [_ ->]. simpl; f_equal; lia.
  - discriminate.
  - repeat constructor; apply isDigit_digitChar; assumption.
Qed.

Lemma padStart_seconds x y :
  0 <= x < 10 -> 0 <= y < 10 ->
  Js.padStart 2 "0" (Js.toString (10 * x + y))
  = String (Js.digitChar x) (String (Js.digitChar y) "").
Proof.
  intros Hx Hy. destruct (Z.eq_dec x 0) as [->|Hne].
  - rewrite toString_digit by lia. simpl. reflexivity.
  - rewrite toString_two_digits by lia.
    replace ((10 * x + y) / 10) with x by (apply Z.div_unique with y; lia).
    replace ((10 * x + y) mod 10) with y by (apply Z.mod_unique with x; lia).
    reflexivity.
Qed.

Lemma toString_minutes a b :
  0 <= a < 10 -> 0 <= b < 10 ->
  Js.toString (10 * a + b)
  = if a =? 0 then String (Js.digitChar b) ""
    else String (Js.digitChar a) (String (Js.digitChar b) "").
Proof.
  intros Ha Hb. destruct (Z.eqb_spec a 0) as [->|Hne].
  - apply toString_digit. lia.
  - rewrite toString_two_digits by lia.
    replace ((10 * a + b) / 10) with a by (apply Z.div_unique with b; lia).
    replace ((10 * a + b) mod 10) with b by (apply Z.mod_unique with a; lia).
    reflexivity.
Qed.

Lemma digitChar_zero a : 0 <= a < 10 -> Ascii.eqb (Js.digitChar a) "0" = (a =? 0).
Proof.
  intros H.
  each_digit a; reflexivity.
Qed.

Lemma digitChar_not_colon a : 0 <= a < 10 -> Ascii.eqb (Js.digitChar a) ":" = false.
Proof.
  intros H.
  each_digit a; reflexivity.
Qed.

Lemma div_rem_60 m s : 0 <= m -> 0 <= s < 60 ->
  (m * 60 + s) / 60 = m /\ Z.rem (m * 60 + s) 60 = s.
Proof.
  intros Hm Hs. split.
  - symmetry. apply Z.div_unique with s; lia.
  - rewrite Z.rem_mod_nonneg by lia. symmetry. apply Z.mod_unique with m; lia.
Qed.

Lemma roundtrip_valid s :
  validateTimeFormat s = true -> secondsPart s < 60 ->
  secondsToTime (timeToSeconds s) = stripMinutesPadding s.
Proof.
  intros Hv Hs. destruct (validate_shape s Hv) as
    [(ca & cx & cy & -> & Ha & Hx & Hy) | (ca & cb & cx & cy & -> & Ha & Hb & Hx & Hy)].
  - pose proof (noColon_digits1 ca Ha) as Hn1.
    pose proof (noColon_digits2 cx cy Hx Hy) as Hn2.
    destruct (decVal_digit ca Ha) as (a & Hra & _ & ->).
    destruct (decVal_digit cx Hx) as (x & Hrx & _ & ->).
    destruct (decVal_digit cy Hy) as (y & Hry & _ & ->).
    unfold secondsPart in Hs. unfold timeToSeconds.
    change (String (Js.digitChar a) (String ":" ?r)) with (String (Js.digitChar a) "" ++ String ":" r) in *.
    rewrite split_app_colon, split_noColon in * by assumption.
    rewrite parseInt_digit1, parseInt_digit2 in * by assumption.
    simpl in Hs. cbn [Js.orZero].
    unfold secondsToTime.
    destruct (div_rem_60 a (10 * x + y)) as [-> ->]; [lia | lia |].
    rewrite toString_digit, padStart_seconds by assumption.
    unfold stripMinutesPadding. simpl.
    rewrite (digitChar_not_colon x), andb_false_r by assumption. reflexivity.
  - pose proof (noColon_digits2 ca cb Ha Hb) as Hn1.
    pose proof (noColon_digits2 cx cy Hx Hy) as Hn2.
    destruct (decVal_digit ca Ha) as (a & Hra & _ & ->).
    destruct (decVal_digit cb Hb) as (b & Hrb & _ & ->).
    destruct (decVal_digit cx Hx) as (x & Hrx & _ & ->).
    destruct (decVal_digit cy Hy) as (y & Hry & _ & ->).
    unfold secondsPart in Hs. unfold timeToSeconds.
    change (String (Js.digitChar a) (String (Js.digitChar b) (String ":" ?r)))
      with (String (Js.digitChar a) (String (Js.digitChar b) "") ++ String ":" r) in *.
    rewrite split_app_colon, split_noColon in * by assumption.
    rewrite !parseInt_digit2 in * by assumption.
    simpl in Hs. cbn [Js.orZero].
    unfold secondsToTime.
    destruct (div_rem_60 (10 * a + b) (10 * x + y)) as [-> ->]; [lia | lia |].
    rewrite toString_minutes, padStart_seconds by assumption.
    unfold stripMinutesPadding. simpl.
    rewrite digitChar_zero by assumption. rewrite ?Ascii.eqb_refl. simpl.
    destruct (a =? 0); simpl; rewrite ?string_of_list_ascii_of_string; reflexivity.
Qed.

End RoundTrip.

Section CodecTheorems.


Lemma toString_noColon n : noColon (Js.toString n).
Proof.
  unfold Js.toString.
  assert (H : allDigits (Js.digitsOf (S (Z.to_nat (Z.log2 (Z.abs n)))) (Z.abs n) ""))
    by (apply digitsOf_allDigits; [lia | constructor]).
  apply allDigits_noColon in H. destruct (n <? 0); [|exact H].
  unfold noColon in *. simpl. intros [Hc|Hin]; [discriminate Hc | tauto].
Qed.


Lemma timeToSeconds_parts a b :
  noColon a -> noColon b ->
  timeToSeconds (a ++ ":" ++ b) = Js.orZero (Js.parseInt a) * 60 + Js.orZero (Js.parseInt b).
Proof.
  intros Ha Hb. unfold timeToSeconds.
  change (":" ++ b) with (String ":" b).
  rewrite split_app_colon, split_noColon by assumption. reflexivity.
Qed.


(** Writing a non-negative number of seconds and reading it back gives
    the number. *)
Lemma timeToSeconds_secondsToTime n : 0 <= n -> timeToSeconds (secondsToTime n) = n.
Proof.
  intros Hn. unfold secondsToTime. rewrite Z.rem_mod_nonneg by lia.
  pose proof (Z.mod_pos_bound n 60 ltac:(lia)) as Hr.
  assert (Hs1 : 0 <= n mod 60 / 10 < 10)
    by (split; [apply Z.div_pos; lia | apply Z.div_lt_upper_bound; lia]).
  pose proof (Z.mod_pos_bound (n mod 60) 10 ltac:(lia)) as Hs2.
  pose proof (Z.div_mod (n mod 60) 10 ltac:(lia)) as Hs.
  rewrite Hs at 1. rewrite padStart_seconds by assumption.
  rewrite timeToSeconds_parts.
  - rewrite parseInt_toString, parseInt_digit2 by assumption.
    cbn [Js.orZero]. pose proof (Z.div_mod n 60 ltac:(lia)). lia.
  - apply toString_noColon.
  - apply noColon_digits2; apply isDigit_digitChar; assumption.
Qed.

(** Numbers with a fraction. *)










Lemma secondsToTime_invalid_from_6000 n :
  6000 <= n -> validateTimeFormat (secondsToTime n) = false.
Proof.
  intros Hn. destruct (validateTimeFormat (secondsToTime n)) eqn:E; [|reflexivity].
  apply validate_length in E. unfold secondsToTime in E.
  rewrite !string_length_app in E.
  assert (100 <= n / 60) by (apply Z.div_le_lower_bound; lia).
  pose proof (toString_length_3 (n / 60) ltac:(lia)).
  unfold Js.padStart in E. rewrite string_length_app in E.
  assert (2 <= String.length (Js.replicate (2 - String.length (Js.toString (Z.rem n 60))) "0")
               + String.length (Js.toString (Z.rem n 60)))%nat.
  { destruct (String.length (Js.toString (Z.rem n 60))) as [|[|k]]; simpl; lia. }
  simpl in E. lia.
Qed.

Lemma secondsToTime_nonempty n : String.eqb (secondsToTime n) "" = false.
Proof.
  apply String.eqb_neq. intros E.
  assert (H : String.length (secondsToTime n) = 0%nat) by (rewrite E; reflexivity).
  unfold secondsToTime in H. rewrite !string_length_app in H. simpl in H. lia.
Qed.

Lemma secondsToTime_valid_below_6000 n :
  0 <= n < 6000 -> validateTimeFormat (secondsToTime n) = true.
Proof.
  intros Hn. unfold secondsToTime. rewrite Z.rem_mod_nonneg by lia.
  pose proof (Z.mod_pos_bound n 60 ltac:(lia)) as Hr.
  assert (Hq : 0 <= n / 60 < 100)
    by (split; [apply Z.div_pos; lia | apply Z.div_lt_upper_bound; lia]).
  replace (n mod 60) with (10 * (n mod 60 / 10) + (n mod 60) mod 10)
    by (symmetry; apply Z.div_mod; lia).
  assert (Hs1 : 0 <= n mod 60 / 10 < 10)
    by (split; [apply Z.div_pos; lia | apply Z.div_lt_upper_bound; lia]).
  pose proof (Z.mod_pos_bound (n mod 60) 10 ltac:(lia)) as Hs2.
  rewrite padStart_seconds by assumption.
  replace (n / 60) with (10 * (n / 60 / 10) + (n / 60) mod 10)
    by (symmetry; apply Z.div_mod; lia).
  assert (Hm1 : 0 <= n / 60 / 10 < 10)
    by (split; [apply Z.div_pos; lia | apply Z.div_lt_upper_bound; lia]).
  pose proof (Z.mod_pos_bound (n / 60) 10 ltac:(lia)) as Hm2.
  rewrite toString_minutes by assumption.
  unfold validateTimeFormat.
  destruct (_ =? 0); simpl; rewrite ?isDigit_digitChar by assumption; reflexivity.
Qed.

(** C2, as stated, fails: ["1:75"] is accepted by the validator, is read
    as 135 seconds and is written back as ["2:15"]. *)
Lemma roundtrip_fails_above_59_seconds :
  validateTimeFormat "1:75" = true
  /\ secondsToTime (timeToSeconds "1:75") = "2:15"
  /\ secondsToTime (timeToSeconds "1:75") <> stripMinutesPadding "1:75".
Proof. split; [reflexivity | split; [reflexivity | discriminate]]. Qed.

(** C2, amended: for every string that the validator accepts and whose
    seconds part is below 60, reading and then writing gives the string
    back, up to the padding zero of a two-digit minutes part. *)
Theorem roundtrip_valid_time_below_60_seconds (s : string) :
  validateTimeFormat s = true -> secondsPart s < 60 ->
  secondsToTime (timeToSeconds s) = stripMinutesPadding s.
Proof. apply roundtrip_valid. Qed.

Lemma roundtrip_valid_time_below_60_seconds_witness :
  secondsToTime (timeToSeconds "05:07") = "5:07".
Proof.
  apply (roundtrip_valid_time_below_60_seconds "05:07"); [reflexivity | vm_compute; reflexivity].
Defined.

End CodecTheorems.

(** * The event loop and the sequential runs *)

Section Runs.

Variables (ok : RemoteCall -> bool) (title : Lookup -> option string).

Lemma exec_after seg q st :
  exec ok title (after seg q) st = exec ok title q (seg st).
Proof. destruct q; reflexivity. Qed.

Lemma exec_andThen p q : forall st,
  exec ok title (andThen p q) st = exec ok title q (exec ok title p st).
Proof.
  induction p as [seg | seg call k IH | seg l k IH]; intros st; simpl.
  - apply exec_after.
  - apply IH.
  - apply IH.
Qed.

Lemma dispatch_after seg q w :
  dispatch (after seg q) w
  = dispatch q {| state := seg (state w); inflight := inflight w |}.
Proof. destruct q; reflexivity. Qed.

(** Answering a handler at once in the event loop is [finish]. *)
Lemma run_answers p : forall w,
  run (answers ok title p (length (inflight w))) (dispatch p w)
  = {| state := finish ok title p (state w); inflight := inflight w |}.
Proof.
  induction p as [seg | seg call k IH | seg l k IH]; intros w.
  - reflexivity.
  - cbn [answers dispatch run fold_left step state inflight].
    rewrite lookup_app_r, Nat.sub_diag by lia. cbn [lookup list_lookup].
    replace (delete (length (inflight w)) (inflight w ++ [AwaitRemote k])%list) with (inflight w).
    + specialize (IH (ok call) {| state := commit (send call (seg (state w))); inflight := inflight w |}).
      exact IH.
    + clear. induction (inflight w) as [|x l IHl]; [reflexivity|].
      simpl. f_equal. exact IHl.
  - cbn [answers dispatch run fold_left step state inflight].
    rewrite lookup_app_r, Nat.sub_diag by lia. cbn [lookup list_lookup].
    replace (delete (length (inflight w)) (inflight w ++ [AwaitLookup k])%list) with (inflight w).
    + specialize (IH (title l) {| state := commit (seg (state w)); inflight := inflight w |}).
      exact IH.
    + clear. induction (inflight w) as [|x l' IHl]; [reflexivity|].
      simpl. f_equal. exact IHl.
Qed.

(** A handler that is left alone in the event loop: the event, followed
    by the answers to its requests, does what [perform] does. *)
Lemma perform_is_run e w :
  (forall n b, e <> RemoteAnswered n b) -> (forall n a, e <> LookupAnswered n a) ->
  run (e :: answers ok title (handler e (state w)) (length (inflight w))) w
  = {| state := perform ok title e (state w); inflight := inflight w |}.
Proof.
  intros Hr Hl. unfold perform. rewrite <- run_answers.
  change (run (e :: ?es) w) with (run es (step e w)). f_equal.
  destruct e; try reflexivity; [exfalso; eapply Hr | exfalso; eapply Hl]; reflexivity.
Qed.

End Runs.

(** * Invariants of handlers *)

Section Invariants.

Variable I : State -> Prop.




Hypothesis HI : Bookkeeping I.

Lemma Keeps_saveSnippet r snippet : Keeps I (saveSnippet r snippet).
Proof.
  destruct HI. unfold saveSnippet. destruct (negb (r_supabase r)).
  - constructor. auto.
  - constructor; [auto|]. intros [|]; constructor; auto.
Qed.





Lemma Keeps_exec ok title p :
  Keeps I p -> forall st, I st -> I (exec ok title p st).
Proof.
  destruct HI. intros Hp. induction Hp as [seg Hs | seg call k Hs Hk IH | seg l k Hs Hk IH];
    intros st Hst; simpl; auto.
Qed.

Lemma Keeps_finish ok title p :
  Keeps I p -> forall st, I st -> I (finish ok title p st).
Proof. intros Hp st Hst. apply (bk_commit HI). apply Keeps_exec; assumption. Qed.




End Invariants.

(** * The in-memory collection *)

Section Projections.

Lemma commit_snippets st : snippets (commit st) = snippets st.
Proof. commit_field. Qed.

Lemma commit_useLocalStorage st : useLocalStorage (commit st) = useLocalStorage st.
Proof. commit_field. Qed.

Lemma commit_supabase st : supabase (commit st) = supabase st.
Proof. commit_field. Qed.

Lemma commit_audioRefs st : audioRefs (commit st) = audioRefs st.
Proof. commit_field. Qed.

Lemma commit_currentlyPlaying st : currentlyPlaying (commit st) = currentlyPlaying st.
Proof. commit_field. Qed.

Lemma commit_remoteCalls st : remoteCalls (commit st) = remoteCalls st.
Proof. commit_field. Qed.

Lemma commit_effectDue st : effectDue (commit st) = false.
Proof. reflexivity. Qed.

Lemma commit_localStorage st :
  localStorage (commit st)
  = if effectDue st && useLocalStorage st && (0 <? length (snippets st))%nat
    then Some (snippets st) else localStorage st.
Proof. commit_field. Qed.

(** The persistence code never touches the collection. *)
Lemma collection_bookkeeping l : Bookkeeping (fun st => snippets st = l).
Proof.
  constructor; intros; rewrite ?commit_snippets; assumption.
Qed.

End Projections.

Section Collection.

Variables (ok : RemoteCall -> bool) (title : Lookup -> option string).

Lemma exec_saveSnippet_snippets r snippet st :
  snippets (exec ok title (saveSnippet r snippet) st) = snippets st.
Proof.
  apply (Keeps_exec _ (collection_bookkeeping (snippets st))); [|reflexivity].
  apply Keeps_saveSnippet, collection_bookkeeping.
Qed.

Lemma exec_saveIfFound_snippets r id l st :
  snippets (exec ok title (saveIfFound r id l) st) = snippets st.
Proof.
  unfold saveIfFound. destruct (List.find _ _); [apply exec_saveSnippet_snippets | reflexivity].
Qed.

Lemma perform_add_snippets now st :
  snippets (perform ok title (AddClicked now) st)
  = (snippets st ++ [newSnippet now (render st)])%list.
Proof.
  unfold perform, finish. rewrite commit_snippets. cbn [handler].
  unfold addNewSnippet. rewrite exec_andThen, exec_saveSnippet_snippets. reflexivity.
Qed.

Lemma perform_update_snippets id field value st :
  snippets (perform ok title (FieldChanged id field value) st)
  = mapById id (setField field value) (snippets st).
Proof.
  unfold perform, finish. rewrite commit_snippets. cbn [handler].
  unfold updateSnippet. rewrite exec_andThen, exec_saveIfFound_snippets. reflexivity.
Qed.

Lemma deleteLocally_snippets r id st :
  snippets (deleteLocally r id st)
  = List.filter (fun snippet => negb (hasId id snippet)) (r_snippets r).
Proof.
  unfold deleteLocally.
  each_branch; reflexivity.
Qed.

Lemma perform_delete_snippets id st :
  snippets (perform ok title (DeleteClicked id) st)
  = List.filter (fun snippet => negb (hasId id snippet)) (snippets st).
Proof.
  unfold perform, finish. rewrite commit_snippets. cbn [handler].
  unfold deleteSnippet. cbn [render r_supabase].
  destruct (supabase st); simpl; apply deleteLocally_snippets.
Qed.

End Collection.

Section Records.

Lemma hasId_true id s : hasId id s = true <-> Snippet.id s = id.
Proof. unfold hasId. apply String.eqb_eq. Qed.

Lemma hasId_false id s : hasId id s = false <-> Snippet.id s <> id.
Proof. unfold hasId. apply String.eqb_neq. Qed.

Lemma getField_setField_same f v s : getField f (setField f v s) = JsString v.
Proof. destruct s, f; reflexivity. Qed.

Lemma getField_setField_other f f' v s :
  f' <> f -> getField f' (setField f v s) = getField f' s.
Proof. destruct s, f, f'; intros H; try reflexivity; contradiction. Qed.

Lemma lookup_map {A B} (f : A -> B) (l : list A) (i : nat) :
  map f l !! i = option_map f (l !! i).
Proof.
  revert i. induction l as [|x l IH]; intros [|i]; simpl; try reflexivity. apply IH.
Qed.

Lemma lookup_mapById id f l i :
  mapById id f l !! i
  = option_map (fun s => if hasId id s then f s else s) (l !! i).
Proof. apply lookup_map. Qed.

Lemma mapById_absent id f l :
  (forall s, In s l -> Snippet.id s <> id) -> mapById id f l = l.
Proof.
  induction l as [|x l IH]; intros H; simpl; [reflexivity|].
  assert (Hx : hasId id x = false) by (apply hasId_false, H; left; reflexivity).
  rewrite Hx. f_equal. apply IH. intros s Hs. apply H. right. exact Hs.
Qed.

Lemma filter_absent id l :
  ~ In id (ids l) ->
  List.filter (fun snippet => negb (hasId id snippet)) l = l.
Proof.
  induction l as [|x l IH]; intros H; simpl; [reflexivity|].
  assert (Hx : hasId id x = false) by (apply hasId_false; intros E; apply H; left; exact E).
  rewrite Hx. simpl. f_equal. apply IH. intros Hin. apply H. right. exact Hin.
Qed.

End Records.

(** C6: [addNewSnippet] appends exactly one record to the collection and
    leaves the records before it as they are; the new record has the
    length of the collection before the call as its [position], ["0:00"]
    as its [start_time], the kind ["file"] with no audio reference, and an
    empty name, URLs and notes. Its id is the clock value written out.
    This holds whatever the table answers. *)
Theorem addNewSnippet_appends_default_record
    (ok : RemoteCall -> bool) (title : Lookup -> option string) (now : Z) (st : State) :
  exists s,
    snippets (perform ok title (AddClicked now) st) = (snippets st ++ [s])%list
    /\ Snippet.position s = JsNumber (Z.of_nat (length (snippets st)))
    /\ Snippet.start_time s = "0:00"
    /\ Snippet.audio_type s = "file"
    /\ Snippet.audio_url s = None
    /\ Snippet.song_name s = ""
    /\ Snippet.spotify_url s = ""
    /\ Snippet.soundcloud_url s = ""
    /\ Snippet.notes s = ""
    /\ Snippet.id s = Js.toString now.
Proof.
  exists (newSnippet now (render st)). split; [apply perform_add_snippets|].
  repeat split.
Qed.

(** C4: [updateSnippet id field value] keeps the length and the order of
    the collection; on a snippet with the given id the field becomes
    [value] and every other field keeps its value; a snippet with another
    id is left as it is; and when no snippet has the id the collection is
    unchanged. This holds whatever the table answers. *)
Theorem updateSnippet_replaces_one_field
    (ok : RemoteCall -> bool) (title : Lookup -> option string)
    (id : string) (field : Field) (value : string) (st : State) :
  let l := snippets st in
  let l' := snippets (perform ok title (FieldChanged id field value) st) in
  length l' = length l
  /\ (forall i s, l !! i = Some s -> Snippet.id s = id ->
        exists s', l' !! i = Some s'
          /\ getField field s' = JsString value
          /\ forall f, f <> field -> getField f s' = getField f s)
  /\ (forall i s, l !! i = Some s -> Snippet.id s <> id -> l' !! i = Some s)
  /\ ((forall s, In s l -> Snippet.id s <> id) -> l' = l).
Proof.
  cbv zeta. rewrite perform_update_snippets.
  split; [apply length_map|]. split; [|split].
  - intros i s Hi Hid. exists (setField field value s). split.
    + rewrite lookup_mapById, Hi. simpl.
      apply hasId_true in Hid. rewrite Hid. reflexivity.
    + split; [apply getField_setField_same|].
      intros f Hf. apply getField_setField_other. exact Hf.
  - intros i s Hi Hid. rewrite lookup_mapById, Hi. simpl.
    apply hasId_false in Hid. rewrite Hid. reflexivity.
  - apply mapById_absent.
Qed.

Lemma updateSnippet_replaces_one_field_witness :
  snippets (perform allOk noTitle (FieldChanged "a" F_notes "tape delay")
              (session true [sampleA; sampleB])) !! 1%nat
  = Some sampleB
  /\ exists a', snippets (perform allOk noTitle (FieldChanged "a" F_notes "tape delay")
                           (session true [sampleA; sampleB])) !! 0%nat = Some a'
       /\ Snippet.notes a' = "tape delay" /\ Snippet.song_name a' = "Intro".
Proof.
  destruct (updateSnippet_replaces_one_field allOk noTitle "a" F_notes "tape delay"
              (session true [sampleA; sampleB])) as (_ & Hhit & Hmiss & _).
  split.
  - apply (Hmiss 1%nat sampleB); [reflexivity | discriminate].
  - destruct (Hhit 0%nat sampleA eq_refl eq_refl) as (a' & Ha' & Hv & Hother).
    exists a'. split; [exact Ha'|]. split.
    + simpl in Hv. injection Hv as Hv. exact Hv.
    + specialize (Hother F_song_name ltac:(discriminate)). simpl in Hother.
      injection Hother as Hother. exact Hother.
Defined.

(** C5: when the id made from the clock value is not yet in the collection,
    adding a snippet and then deleting the snippet with that id gives the
    collection back as it was, whatever the table answers to either
    request. *)
Theorem add_then_delete_restores_collection
    (ok1 ok2 : RemoteCall -> bool) (title1 title2 : Lookup -> option string)
    (now : Z) (st : State) :
  ~ In (Js.toString now) (ids (snippets st)) ->
  snippets (perform ok2 title2 (DeleteClicked (Js.toString now))
              (perform ok1 title1 (AddClicked now) st))
  = snippets st.
Proof.
  intros Hfresh. rewrite perform_delete_snippets, perform_add_snippets.
  rewrite List.filter_app, filter_absent by exact Hfresh.
  simpl. unfold hasId. simpl. rewrite String.eqb_refl. simpl. apply app_nil_r.
Qed.

Lemma add_then_delete_restores_collection_witness :
  snippets (perform allFail noTitle (DeleteClicked (Js.toString 1700000000000))
              (perform allOk noTitle (AddClicked 1700000000000) (session true [sampleA])))
  = [sampleA].
Proof.
  apply (add_then_delete_restores_collection allOk allFail noTitle noTitle
           1700000000000 (session true [sampleA])).
  vm_compute. intros [H|[]]. discriminate H.
Defined.

(** C7: for a snippet of kind ["spotify"], setting the kind to ["file"]
    and back to ["spotify"] through [updateSnippet] keeps [spotify_url] at
    each step; at the end the record is the one from before. *)
Theorem switching_kind_keeps_spotify_url
    (ok1 ok2 : RemoteCall -> bool) (title1 title2 : Lookup -> option string)
    (id : string) (st : State) (i : nat) (s : MusicSnippet) :
  snippets st !! i = Some s -> Snippet.id s = id -> Snippet.audio_type s = "spotify" ->
  let st1 := perform ok1 title1 (FieldChanged id F_audio_type "file") st in
  let st2 := perform ok2 title2 (FieldChanged id F_audio_type "spotify") st1 in
  (exists s1, snippets st1 !! i = Some s1
     /\ Snippet.audio_type s1 = "file"
     /\ Snippet.spotify_url s1 = Snippet.spotify_url s)
  /\ (exists s2, snippets st2 !! i = Some s2
     /\ Snippet.audio_type s2 = "spotify"
     /\ Snippet.spotify_url s2 = Snippet.spotify_url s
     /\ s2 = s).
Proof.
  intros Hi Hid Hkind. cbv zeta. rewrite !perform_update_snippets.
  apply hasId_true in Hid.
  assert (H1 : mapById id (setField F_audio_type "file") (snippets st) !! i
               = Some (setField F_audio_type "file" s))
    by (rewrite lookup_mapById, Hi; simpl; rewrite Hid; reflexivity).
  split.
  - exists (setField F_audio_type "file" s). split; [exact H1|]. destruct s; split; reflexivity.
  - exists s. rewrite lookup_mapById, H1. simpl.
    assert (Hid' : hasId id (setField F_audio_type "file" s) = true) by (destruct s; exact Hid).
    rewrite Hid'. destruct s; simpl in *. subst. repeat split.
Qed.

Lemma switching_kind_keeps_spotify_url_witness :
  exists s2,
    snippets (perform allOk noTitle (FieldChanged "7" F_audio_type "spotify")
                (perform allOk noTitle (FieldChanged "7" F_audio_type "file")
                   (session false [sampleSpotify]))) !! 0%nat = Some s2
    /\ Snippet.spotify_url s2 = "https://open.spotify.com/track/abc".
Proof.
  destruct (switching_kind_keeps_spotify_url allOk allOk noTitle noTitle "7"
              (session false [sampleSpotify]) 0%nat sampleSpotify
              eq_refl eq_refl eq_refl) as (_ & s2 & H2 & _ & Hurl & _).
  exists s2. split; [exact H2 | exact Hurl].
Defined.

(** * Persistence fallback *)

Section Fallback.


Lemma mode_local st : useLocalStorage st = true -> mode st = LocalMode.
Proof. unfold mode. intros ->. rewrite andb_false_r. reflexivity. Qed.


Lemma deleteLocally_useLocalStorage r id st :
  useLocalStorage (deleteLocally r id st) = useLocalStorage st.
Proof.
  unfold deleteLocally.
  each_branch; reflexivity.
Qed.

Lemma togglePlayPause_useLocalStorage r id st :
  useLocalStorage (togglePlayPause r id st) = useLocalStorage st.
Proof.
  unfold togglePlayPause.
  each_branch; reflexivity.
Qed.





Lemma dispatch_save_remote seg r snippet w :
  r_supabase r = true ->
  dispatch (after seg (saveSnippet r snippet)) w
  = {| state := commit (send (Upsert snippet) (setSaving true (seg (state w))));
       inflight := (inflight w ++ [AwaitRemote (saveSnippetAnswered r snippet)])%list |}.
Proof. intros H. unfold saveSnippet. rewrite H. reflexivity. Qed.



Lemma step_add_remote now w :
  supabase (state w) = true ->
  step (AddClicked now) w
  = {| state := commit (send (Upsert (newSnippet now (render (state w))))
                  (setSaving true
                     (setSnippets (snippets (state w) ++ [newSnippet now (render (state w))])
                        (state w))));
       inflight := (inflight w
                    ++ [AwaitRemote (saveSnippetAnswered (render (state w))
                                       (newSnippet now (render (state w))))])%list |}.
Proof.
  intros H. cbn [step handler]. unfold addNewSnippet. cbn [andThen].
  rewrite dispatch_save_remote by exact H. reflexivity.
Qed.


Lemma nonempty_length {A} (l : list A) : l <> [] -> (0 <? length l)%nat = true.
Proof. destruct l; [contradiction | reflexivity]. Qed.

End Fallback.

Lemma replaceById_absent snippet l :
  ~ In (Snippet.id snippet) (ids l) -> replaceById snippet l = l.
Proof.
  induction l as [|x l IH]; intros H; [reflexivity|].
  simpl. assert (Hx : hasId (Snippet.id snippet) x = false)
    by (apply hasId_false; intros E; apply H; left; exact E).
  rewrite Hx. f_equal. apply IH. intros Hin. apply H. right. exact Hin.
Qed.

(** The write that [saveSnippet] itself makes on failure goes over the
    collection of the render in which the handler was started: for a
    snippet just appended, with a new id, this is the collection without
    it. The render that follows writes the whole collection. *)
Lemma failed_add_is_mirrored_by_the_effect now st :
  ~ In (Js.toString now) (ids (snippets st)) ->
  supabase st = true ->
  localStorage (exec allFail noTitle (addNewSnippet now (render st)) st)
  = Some (snippets st).
Proof.
  intros Hfresh Hsup. unfold addNewSnippet. rewrite exec_andThen.
  unfold saveSnippet. cbn [render r_supabase r_snippets]. rewrite Hsup.
  cbn [negb exec saveSnippetAnswered allFail].
  cbn [setSaving setUseLocalStorage setItem localStorage r_snippets].
  f_equal. apply replaceById_absent. exact Hfresh.
Qed.




(** * Playback *)

Section Playback.














End Playback.

Section ReachableStates.






End ReachableStates.




(** * Title lookup *)

Section Enrichment.

Variables (ok : RemoteCall -> bool) (title : Lookup -> option string).

Lemma exec_fillSongName_snippets r id trackInfo st :
  snippets (exec ok title (fillSongName r id trackInfo) st)
  = mapById id (fun s => setField F_song_name (orElse (Snippet.song_name s) trackInfo) s)
      (r_snippets r).
Proof.
  unfold fillSongName. rewrite exec_andThen, exec_saveIfFound_snippets. reflexivity.
Qed.

Lemma perform_spotify_snippets id url st :
  snippets (perform ok title (SpotifyUrlChanged id url) st)
  = match (if truthy url && Js.includes "spotify.com/track/" url
           then trackTitle (title (SpotifyOEmbed url)) else None) with
    | Some trackInfo =>
        mapById id (fun s => setField F_song_name (orElse (Snippet.song_name s) trackInfo) s)
          (snippets st)
    | None => mapById id (setField F_spotify_url url) (snippets st)
    end.
Proof.
  unfold perform, finish. rewrite commit_snippets. cbn [handler].
  unfold handleSpotifyUrlChange. rewrite !exec_andThen.
  destruct (truthy url && Js.includes "spotify.com/track/" url).
  - cbn [exec]. destruct (trackTitle _).
    + rewrite exec_fillSongName_snippets. reflexivity.
    + cbn [skip exec]. rewrite commit_snippets, exec_saveIfFound_snippets. reflexivity.
  - cbn [skip exec]. rewrite exec_saveIfFound_snippets. reflexivity.
Qed.

Lemma perform_soundcloud_snippets id url st :
  snippets (perform ok title (SoundCloudUrlChanged id url) st)
  = match (if truthy url && Js.includes "soundcloud.com/" url
           then trackTitle (title (SoundCloudOEmbed url)) else None) with
    | Some trackInfo =>
        mapById id (fun s => setField F_song_name (orElse (Snippet.song_name s) trackInfo) s)
          (snippets st)
    | None => mapById id (setField F_soundcloud_url url) (snippets st)
    end.
Proof.
  unfold perform, finish. rewrite commit_snippets. cbn [handler].
  unfold handleSoundCloudUrlChange. rewrite !exec_andThen.
  destruct (truthy url && Js.includes "soundcloud.com/" url).
  - cbn [exec]. destruct (trackTitle _).
    + rewrite exec_fillSongName_snippets. reflexivity.
    + cbn [skip exec]. rewrite commit_snippets, exec_saveIfFound_snippets. reflexivity.
  - cbn [skip exec]. rewrite exec_saveIfFound_snippets. reflexivity.
Qed.

(** When nothing happens between the change of the URL and the answer of
    the lookup, a name that is not empty is kept. *)
Lemma lookup_keeps_name_when_uninterrupted e id url st i s :
  e = SpotifyUrlChanged id url \/ e = SoundCloudUrlChanged id url ->
  snippets st !! i = Some s -> Snippet.song_name s <> "" ->
  exists s', snippets (perform ok title e st) !! i = Some s'
             /\ Snippet.song_name s' = Snippet.song_name s.
Proof.
  intros He Hi Hname.
  assert (Hn : truthy (Snippet.song_name s) = true)
    by (unfold truthy; apply negb_true_iff, String.eqb_neq; exact Hname).
  assert (Hgen : forall l,
    (exists t, l = mapById id (fun s => setField F_song_name (orElse (Snippet.song_name s) t) s)
                     (snippets st))
    \/ (exists f, f <> F_song_name /\ l = mapById id (setField f url) (snippets st)) ->
    exists s', l !! i = Some s' /\ Snippet.song_name s' = Snippet.song_name s).
  { intros l [[t ->]|(f & Hf & ->)]; rewrite lookup_mapById, Hi; simpl;
      eexists; (split; [reflexivity|]); destruct (hasId id s); try reflexivity.
    - unfold orElse. rewrite Hn. destruct s; reflexivity.
    - destruct s, f; try reflexivity; contradiction. }
  apply Hgen. destruct He as [-> | ->].
  - rewrite perform_spotify_snippets.
    match goal with
    | |- context [match ?x with Some _ => _ | None => _ end] => destruct x as [t|]
    end; [left; eauto|].
    right. exists F_spotify_url. split; [discriminate | reflexivity].
  - rewrite perform_soundcloud_snippets.
    match goal with
    | |- context [match ?x with Some _ => _ | None => _ end] => destruct x as [t|]
    end; [left; eauto|].
    right. exists F_soundcloud_url. split; [discriminate | reflexivity].
Qed.

End Enrichment.

(** C9 does not hold of the code: the continuation of the URL handler
    reads [song_name] from the render in which the handler was started.
    A name typed while the lookup is under way (["My Song"]) is
    overwritten by the title that arrives, and so is the title set by an
    earlier lookup (["First Title"]). *)
Theorem lookup_overwrites_name_set_meanwhile :
  map Snippet.song_name (snippets (state nameTypedDuringLookup)) = ["My Song"]
  /\ map Snippet.song_name
       (snippets (state (step (LookupAnswered 0 (Some "Fetched Title"))
                           nameTypedDuringLookup)))
     = ["Fetched Title"]
  /\ map Snippet.song_name (snippets (state firstOfTwoLookupsAnswered)) = ["First Title"]
  /\ map Snippet.song_name
       (snippets (state (step (LookupAnswered 0 (Some "Second Title"))
                           firstOfTwoLookupsAnswered)))
     = ["Second Title"].
Proof. vm_compute. repeat split. Qed.

(** * Capturing the playback position *)

Lemma perform_capture ok title id audio st :
  audioRefs st !! id = Some audio ->
  perform ok title (CaptureTimeClicked id) st
  = perform ok title (FieldChanged id F_start_time (secondsToTime (currentTime audio))) st.
Proof.
  intros H. unfold perform. cbn [handler]. unfold getCurrentPlaybackTime. rewrite H. reflexivity.
Qed.

(** C10: [secondsToTime 6000] is ["100:00"], which the validator rejects;
    the validator rejects [secondsToTime n] for every [n] from 6000 on and
    accepts it for every [n] from 0 to 5999. Hence a start time captured
    from an audio element whose position is at 6000 seconds or more is
    stored in a form that the validator rejects, and is replaced by
    ["0:00"] when the input that shows it loses focus. *)
Theorem formatted_time_can_fail_validation :
  secondsToTime 6000 = "100:00"
  /\ validateTimeFormat (secondsToTime 6000) = false
  /\ (forall n, 6000 <= n -> validateTimeFormat (secondsToTime n) = false)
  /\ (forall n, 0 <= n < 6000 -> validateTimeFormat (secondsToTime n) = true)
  /\ (forall ok title st id audio i s,
        audioRefs st !! id = Some audio -> 6000 <= currentTime audio ->
        snippets st !! i = Some s -> Snippet.id s = id ->
        exists s', snippets (perform ok title (CaptureTimeClicked id) st) !! i = Some s'
          /\ Snippet.start_time s' = secondsToTime (currentTime audio)
          /\ validateTimeFormat (Snippet.start_time s') = false)
  /\ (forall ok1 ok2 title1 title2 st id audio i s,
        audioRefs st !! id = Some audio -> 6000 <= currentTime audio ->
        snippets st !! i = Some s -> Snippet.id s = id ->
        let st1 := perform ok1 title1 (CaptureTimeClicked id) st in
        exists s2,
          snippets (perform ok2 title2
                      (StartTimeBlurred id (secondsToTime (currentTime audio))) st1) !! i
          = Some s2
          /\ Snippet.start_time s2 = "0:00").
Proof.
  split; [reflexivity|]. split; [reflexivity|].
  split; [exact secondsToTime_invalid_from_6000|].
  split; [exact secondsToTime_valid_below_6000|].
  split.
  - intros ok title st id audio i s Ha Ht Hi Hid.
    rewrite (perform_capture ok title id audio st Ha), perform_update_snippets.
    exists (setField F_start_time (secondsToTime (currentTime audio)) s).
    split; [|split].
    + rewrite lookup_mapById, Hi. simpl. apply hasId_true in Hid. rewrite Hid. reflexivity.
    + destruct s; reflexivity.
    + replace (Snippet.start_time _) with (secondsToTime (currentTime audio))
        by (destruct s; reflexivity).
      apply secondsToTime_invalid_from_6000. exact Ht.
  - intros ok1 ok2 title1 title2 st id audio i s Ha Ht Hi Hid. cbv zeta.
    rewrite (perform_capture ok1 title1 id audio st Ha).
    unfold perform at 1. cbn [handler]. unfold startTimeBlur.
    rewrite secondsToTime_invalid_from_6000, secondsToTime_nonempty by exact Ht.
    cbn [negb andb].
    change (finish ok2 title2 (updateSnippet (render ?st') id F_start_time "0:00") ?st')
      with (perform ok2 title2 (FieldChanged id F_start_time "0:00") st').
    rewrite !perform_update_snippets, !lookup_mapById, Hi.
    apply hasId_true in Hid. simpl. rewrite Hid.
    assert (Hid' : hasId id (setField F_start_time (secondsToTime (currentTime audio)) s) = true)
      by (destruct s; exact Hid).
    rewrite Hid'. eexists. split; [reflexivity|]. destruct s; reflexivity.
Qed.

Lemma formatted_time_can_fail_validation_witness :
  validateTimeFormat (secondsToTime 7261) = false
  /\ validateTimeFormat (secondsToTime 5999) = true.
Proof.
  destruct formatted_time_can_fail_validation as (_ & _ & Hhigh & Hlow & _).
  split; [apply Hhigh; lia | apply Hlow; lia].
Defined.

(** * File names *)

Lemma spaceOut_no_sep c : isSeparator (spaceOut c) = false.
Proof. destruct c as [[] [] [] [] [] [] [] []]; reflexivity. Qed.

Lemma spaceOut_id c : isSeparator c = false -> spaceOut c = c.
Proof. unfold spaceOut, isSeparator. intros ->. reflexivity. Qed.

Lemma upper_no_sep c : isSeparator c = false -> isSeparator (JsText.upper c) = false.
Proof. destruct c as [[] [] [] [] [] [] [] []]; intros H; first [reflexivity | discriminate H]. Qed.

Lemma upper_upper c : JsText.upper (JsText.upper c) = JsText.upper c.
Proof. destruct c as [[] [] [] [] [] [] [] []]; reflexivity. Qed.

Lemma isWord_upper c : JsText.isWord (JsText.upper c) = JsText.isWord c.
Proof. destruct c as [[] [] [] [] [] [] [] []]; reflexivity. Qed.

Lemma occurrences_sep_zero c s :
  JsText.forallb (fun d => negb (isSeparator d)) s = true -> isSeparator c = true -> occurrences c s = 0%nat.
Proof.
  intros Hs Hc. induction s as [|d r IH]; [reflexivity|].
  simpl in Hs. apply andb_true_iff in Hs as [Hd Hr]. simpl. rewrite (IH Hr).
  destruct (Ascii.eqb_spec d c) as [->|_]; [|reflexivity].
  rewrite Hc in Hd. discriminate Hd.
Qed.

Lemma map_spaceOut_no_sep s :
  JsText.forallb (fun d => negb (isSeparator d)) (JsText.map spaceOut s) = true.
Proof.
  induction s as [|c r IH]; [reflexivity|]. simpl.
  rewrite IH, spaceOut_no_sep. reflexivity.
Qed.

Lemma capitalize_no_sep s : forall b,
  JsText.forallb (fun d => negb (isSeparator d)) s = true ->
  JsText.forallb (fun d => negb (isSeparator d)) (capitalize b s) = true.
Proof.
  induction s as [|c r IH]; intros b H; [reflexivity|].
  simpl in H. apply andb_true_iff in H as [Hc Hr]. simpl. rewrite (IH _ Hr).
  apply negb_true_iff in Hc.
  destruct (JsText.isWord c && negb b); [rewrite (upper_no_sep c Hc) | rewrite Hc]; reflexivity.
Qed.

Lemma cleanFileName_no_sep s :
  JsText.forallb (fun d => negb (isSeparator d)) (cleanFileName s) = true.
Proof. unfold cleanFileName. apply capitalize_no_sep, map_spaceOut_no_sep. Qed.

Lemma length_map f s : String.length (JsText.map f s) = String.length s.
Proof. induction s as [|c r IH]; simpl; [reflexivity | rewrite IH; reflexivity]. Qed.

Lemma length_capitalize s : forall b, String.length (capitalize b s) = String.length s.
Proof. induction s as [|c r IH]; intros b; simpl; [reflexivity | rewrite IH; reflexivity]. Qed.

Lemma length_dropExtension s : (String.length (dropExtension s) <= String.length s)%nat.
Proof.
  induction s as [|c r IH]; [simpl; lia|].
  cbn [dropExtension]. destruct (extensionAt (String c r)); simpl; lia.
Qed.

Lemma extensionAt_no_dot s :
  JsText.forallb (fun d => negb (isSeparator d)) s = true -> extensionAt s = false.
Proof.
  destruct s as [|c r]; [reflexivity|]. simpl. intros H.
  apply andb_true_iff in H as [Hc _]. apply negb_true_iff in Hc. unfold isSeparator in Hc.
  apply orb_false_iff in Hc as [_ Hdot]. rewrite Hdot. reflexivity.
Qed.

Lemma dropExtension_no_dot s :
  JsText.forallb (fun d => negb (isSeparator d)) s = true -> dropExtension s = s.
Proof.
  induction s as [|c r IH]; intros H; [reflexivity|].
  cbn [dropExtension]. rewrite (extensionAt_no_dot _ H).
  simpl in H. apply andb_true_iff in H as [_ Hr]. rewrite (IH Hr). reflexivity.
Qed.

Lemma map_spaceOut_id s :
  JsText.forallb (fun d => negb (isSeparator d)) s = true -> JsText.map spaceOut s = s.
Proof.
  induction s as [|c r IH]; intros H; [reflexivity|].
  simpl in H. apply andb_true_iff in H as [Hc Hr]. apply negb_true_iff in Hc.
  simpl. rewrite (IH Hr), (spaceOut_id c Hc). reflexivity.
Qed.

Lemma capitalize_capitalize s : forall b,
  capitalize b (capitalize b s) = capitalize b s.
Proof.
  induction s as [|c r IH]; intros b; [reflexivity|]. simpl.
  destruct (JsText.isWord c && negb b) eqn:E.
  - rewrite isWord_upper, E, upper_upper, IH. reflexivity.
  - rewrite E, IH. reflexivity.
Qed.

(** Before an extension, no extension starts. *)
Lemma dropExtension_app stem ext :
  ext <> "" ->
  JsText.forallb (fun d => negb (Ascii.eqb d "/" || Ascii.eqb d ".")) ext = true ->
  dropExtension (stem ++ String "." ext) = stem.
Proof.
  intros Hne Hext.
  assert (Hend : extensionAt (String "." ext) = true).
  { simpl. rewrite Hext. destruct ext; [contradiction | reflexivity]. }
  assert (Hnot : forall t, JsText.forallb (fun d => negb (Ascii.eqb d "/" || Ascii.eqb d "."))
                             (t ++ String "." ext) = false).
  { induction t as [|d t IHt]; simpl; [reflexivity|]. rewrite IHt. apply andb_false_r. }
  induction stem as [|c r IH].
  - change ("" ++ String "." ext) with (String "." ext).
    cbn [dropExtension]. rewrite Hend. reflexivity.
  - change (String c r ++ String "." ext) with (String c (r ++ String "." ext)).
    cbn [dropExtension].
    assert (E : extensionAt (String c (r ++ String "." ext)) = false)
      by (cbn [extensionAt]; rewrite Hnot; apply andb_false_r).
    rewrite E, IH. reflexivity.
Qed.

(** X1: the name made from a file name contains no underscore, hyphen or
    dot, and is not longer than the file name. *)
Theorem cleanFileName_has_no_separator (fileName : string) :
  occurrences "_" (cleanFileName fileName) = 0%nat
  /\ occurrences "-" (cleanFileName fileName) = 0%nat
  /\ occurrences "." (cleanFileName fileName) = 0%nat
  /\ (String.length (cleanFileName fileName) <= String.length fileName)%nat.
Proof.
  pose proof (cleanFileName_no_sep fileName) as H.
  repeat split; try (apply (occurrences_sep_zero _ _ H); reflexivity).
  unfold cleanFileName. rewrite length_capitalize, length_map. apply length_dropExtension.
Qed.

(** X2: cleaning a cleaned name changes nothing. *)
Theorem cleanFileName_idempotent (fileName : string) :
  cleanFileName (cleanFileName fileName) = cleanFileName fileName.
Proof.
  pose proof (cleanFileName_no_sep fileName) as H.
  unfold cleanFileName at 1.
  rewrite (dropExtension_no_dot _ H), (map_spaceOut_id _ H).
  unfold cleanFileName. apply capitalize_capitalize.
Qed.

(** X3: an extension (a last dot followed by at least one character, none
    of them a slash or a dot) does not show in the name: the name is made
    from what stands before it, so files that differ in their extension
    only get the same name. *)
Theorem cleanFileName_ignores_extension (stem ext : string) :
  ext <> "" -> Js.includes "/" ext = false -> Js.includes "." ext = false ->
  cleanFileName (stem ++ "." ++ ext) = capitalize false (JsText.map spaceOut stem).
Proof.
  intros Hne Hslash Hdot. unfold cleanFileName.
  change ("." ++ ext) with (String "." ext).
  rewrite dropExtension_app; [reflexivity | exact Hne |].
  clear Hne. induction ext as [|c r IH]; [reflexivity|].
  change (Js.includes "/" (String c r)) with (Ascii.eqb "/" c && true || Js.includes "/" r) in Hslash.
  change (Js.includes "." (String c r)) with (Ascii.eqb "." c && true || Js.includes "." r) in Hdot.
  rewrite andb_true_r in Hslash, Hdot.
  apply orb_false_iff in Hslash as [Hs1 Hs2]. apply orb_false_iff in Hdot as [Hd1 Hd2].
  simpl. rewrite (IH Hs2 Hd2), andb_true_r.
  rewrite Ascii.eqb_sym, Hs1, Ascii.eqb_sym, Hd1. reflexivity.
Qed.

Lemma cleanFileName_ignores_extension_witness :
  cleanFileName ("late_night-mix" ++ "." ++ "mp3") = "Late Night Mix".
Proof.
  rewrite (cleanFileName_ignores_extension "late_night-mix" "mp3");
    [reflexivity | discriminate | reflexivity | reflexivity].
Defined.

(** * Track ids and previews *)

Lemma stripPrefix_app p q s :
  JsText.stripPrefix (p ++ q) s
  = match JsText.stripPrefix p s with
    | Some r => JsText.stripPrefix q r
    | None => None
    end.
Proof.
  revert s. induction p as [|a p IH]; intros s; [reflexivity|].
  destruct s as [|b s]; [reflexivity|].
  change (String a p ++ q) with (String a (p ++ q)).
  cbn [JsText.stripPrefix]. destruct (Ascii.eqb a b); [apply IH | reflexivity].
Qed.

Lemma stripPrefix_Some p : forall s r, JsText.stripPrefix p s = Some r -> s = p ++ r.
Proof.
  induction p as [|a p IH]; intros s r H.
  - destruct s; simpl in H; injection H as <-; reflexivity.
  - destruct s as [|b s]; [discriminate H|]. simpl in H.
    destruct (Ascii.eqb_spec a b) as [->|_]; [|discriminate H].
    change (String b p ++ r) with (String b (p ++ r)). rewrite <- (IH _ _ H). reflexivity.
Qed.

Lemma stripPrefix_startsWith p : forall s r q,
  JsText.stripPrefix p s = Some r -> Js.startsWith q r = true -> Js.startsWith (p ++ q) s = true.
Proof.
  induction p as [|a p IH]; intros s r q H Hq.
  - destruct s; simpl in H; injection H as <-; exact Hq.
  - destruct s as [|b s]; [discriminate H|]. simpl in H.
    change (String a p ++ q) with (String a (p ++ q)). cbn [Js.startsWith].
    destruct (Ascii.eqb a b); [|discriminate H]. apply (IH _ _ _ H Hq).
Qed.

Lemma startsWith_takeWhile f s : Js.startsWith (JsText.takeWhile f s) s = true.
Proof.
  induction s as [|c r IH]; [reflexivity|]. simpl.
  destruct (f c); [|reflexivity]. simpl. rewrite Ascii.eqb_refl. exact IH.
Qed.

Lemma forallb_takeWhile f s : JsText.forallb f (JsText.takeWhile f s) = true.
Proof.
  induction s as [|c r IH]; [reflexivity|]. simpl.
  destruct (f c) eqn:E; [|reflexivity]. simpl. rewrite E. exact IH.
Qed.

Lemma groupAt_Some lit s g :
  groupAt lit s = Some g ->
  truthy g = true /\ JsText.forallb JsText.isAlnum g = true
  /\ Js.startsWith (lit ++ g) s = true.
Proof.
  unfold groupAt. destruct (JsText.stripPrefix lit s) as [rest|] eqn:E; [|discriminate].
  cbv zeta. destruct (truthy (JsText.takeWhile JsText.isAlnum rest)) eqn:T; [|discriminate].
  intros [= <-]. split; [exact T|]. split; [apply forallb_takeWhile|].
  apply (stripPrefix_startsWith _ _ _ _ E), startsWith_takeWhile.
Qed.

Lemma search_Some lit : forall s g,
  search lit s = Some g ->
  truthy g = true /\ JsText.forallb JsText.isAlnum g = true
  /\ Js.includes (lit ++ g) s = true.
Proof.
  induction s as [|c r IH]; intros g H; cbn [search] in H.
  - destruct (groupAt lit "") as [g'|] eqn:E; [|discriminate H].
    injection H as ->. destruct (groupAt_Some _ _ _ E) as (T & A & S).
    split; [exact T|]. split; [exact A|]. cbn [Js.includes]. rewrite S. reflexivity.
  - destruct (groupAt lit (String c r)) as [g'|] eqn:E.
    + injection H as ->. destruct (groupAt_Some _ _ _ E) as (T & A & S).
      split; [exact T|]. split; [exact A|]. cbn [Js.includes]. rewrite S. reflexivity.
    + destruct (IH _ H) as (T & A & S).
      split; [exact T|]. split; [exact A|]. cbn [Js.includes]. rewrite S. apply orb_true_r.
Qed.

(** A match in a suffix makes the search succeed. *)
Lemma search_suffix lit t g :
  groupAt lit t = Some g -> forall pre, exists g', search lit (pre ++ t) = Some g'.
Proof.
  intros H. induction pre as [|c pre [g' IH]].
  - exists g. change ("" ++ t) with t. destruct t; cbn [search]; rewrite H; reflexivity.
  - change (String c pre ++ t) with (String c (pre ++ t)). cbn [search].
    destruct (groupAt lit (String c (pre ++ t))) as [g''|]; [exists g''|exists g']; auto.
Qed.

Lemma groupAt_app p lit s g :
  groupAt (p ++ lit) s = Some g ->
  exists t, s = p ++ t /\ groupAt lit t = Some g.
Proof.
  unfold groupAt. rewrite stripPrefix_app.
  destruct (JsText.stripPrefix p s) as [t|] eqn:E; [|discriminate].
  intros H. exists t. split; [apply (stripPrefix_Some _ _ _ E) | exact H].
Qed.

(** The longer expressions match only where the shorter one does. *)
Lemma search_longer p lit : forall s g,
  search (p ++ lit) s = Some g -> exists g', search lit s = Some g'.
Proof.
  assert (Hat : forall s g, groupAt (p ++ lit) s = Some g -> exists g', search lit s = Some g').
  { intros s g H. destruct (groupAt_app _ _ _ _ H) as (t & -> & Ht).
    apply (search_suffix _ _ _ Ht). }
  induction s as [|c r IH]; intros g H; cbn [search] in H.
  - destruct (groupAt (p ++ lit) "") as [g'|] eqn:E; [|discriminate H]. apply (Hat _ _ E).
  - destruct (groupAt (p ++ lit) (String c r)) as [g'|] eqn:E; [apply (Hat _ _ E)|].
    destruct (IH _ H) as [g'' Hg]. cbn [search].
    destruct (groupAt lit (String c r)) as [g3|]; [exists g3 | exists g'']; auto.
Qed.

Lemma search_longer_None p lit s : search lit s = None -> search (p ++ lit) s = None.
Proof.
  intros H. destruct (search (p ++ lit) s) as [g|] eqn:E; [|reflexivity].
  destruct (search_longer _ _ _ _ E) as [g' Hg]. congruence.
Qed.

(** X4: of the three patterns of [extractSpotifyTrackId] only the first
    decides: the result is the first run of letters and digits after the
    leftmost "track/" that has one, whatever the host of the URL. *)
Theorem extractSpotifyTrackId_first_pattern_decides (url : string) :
  extractSpotifyTrackId url = search "track/" url.
Proof.
  unfold extractSpotifyTrackId. destruct (search "track/" url) as [g|] eqn:E; [reflexivity|].
  pose proof (search_longer_None "spotify.com/" "track/" url E) as E2.
  pose proof (search_longer_None "open.spotify.com/" "track/" url E) as E3.
  change (search "spotify.com/track/" url = None) in E2.
  change (search "open.spotify.com/track/" url = None) in E3.
  rewrite E2. exact E3.
Qed.

(** X5: a track id read from a URL is not empty, consists of letters and
    digits, and stands in the URL right after "track/". *)
Theorem extractSpotifyTrackId_result (url trackId : string) :
  extractSpotifyTrackId url = Some trackId ->
  truthy trackId = true
  /\ JsText.forallb JsText.isAlnum trackId = true
  /\ Js.includes ("track/" ++ trackId) url = true.
Proof.
  unfold extractSpotifyTrackId.
  destruct (search "track/" url) as [g|] eqn:E.
  - intros [= <-]. apply (search_Some _ _ _ E).
  - pose proof (search_longer_None "spotify.com/" "track/" url E) as E2.
    pose proof (search_longer_None "open.spotify.com/" "track/" url E) as E3.
    change (search "spotify.com/track/" url = None) in E2.
    change (search "open.spotify.com/track/" url = None) in E3.
    rewrite E2, E3. discriminate.
Qed.

Lemma extractSpotifyTrackId_result_witness :
  truthy "4uLU6hMCjMI75M1A2tKUQC" = true
  /\ JsText.forallb JsText.isAlnum "4uLU6hMCjMI75M1A2tKUQC" = true
  /\ Js.includes ("track/" ++ "4uLU6hMCjMI75M1A2tKUQC")
       "https://open.spotify.com/track/4uLU6hMCjMI75M1A2tKUQC?si=abc" = true.
Proof.
  apply (extractSpotifyTrackId_result
           "https://open.spotify.com/track/4uLU6hMCjMI75M1A2tKUQC?si=abc").
  vm_compute. reflexivity.
Defined.

(** * Previews *)

Lemma forallb_ws_trimStart s :
  JsText.forallb Js.isWhiteSpace (Js.trimStart s) = JsText.forallb Js.isWhiteSpace s.
Proof.
  induction s as [|c r IH]; [reflexivity|]. simpl.
  destruct (Js.isWhiteSpace c) eqn:E; [exact IH|]. simpl. rewrite E. reflexivity.
Qed.

Lemma trimEnd_empty s : JsText.trimEnd s = "" -> JsText.forallb Js.isWhiteSpace s = true.
Proof.
  induction s as [|c r IH]; [reflexivity|]. simpl.
  destruct (JsText.trimEnd r) as [|d r']; [|discriminate].
  destruct (Js.isWhiteSpace c); [|discriminate]. intros _. apply IH. reflexivity.
Qed.

Lemma trim_empty s : JsText.trim s = "" -> JsText.forallb Js.isWhiteSpace s = true.
Proof. unfold JsText.trim. intros H. rewrite <- forallb_ws_trimStart. apply trimEnd_empty, H. Qed.

Lemma startsWith_forallb f p : forall s,
  Js.startsWith p s = true -> JsText.forallb f s = true -> JsText.forallb f p = true.
Proof.
  induction p as [|a p IH]; intros s Hp Hs; [reflexivity|].
  destruct s as [|b s]; [discriminate Hp|]. simpl in Hp, Hs.
  apply andb_true_iff in Hp as [Hab Hp]. apply andb_true_iff in Hs as [Hb Hs].
  apply Ascii.eqb_eq in Hab as ->. simpl. rewrite Hb. apply (IH _ Hp Hs).
Qed.

Lemma includes_forallb f p : forall s,
  Js.includes p s = true -> JsText.forallb f s = true -> JsText.forallb f p = true.
Proof.
  induction s as [|c r IH]; intros Hp Hs; cbn [Js.includes] in Hp.
  - rewrite orb_false_r in Hp. apply (startsWith_forallb _ _ _ Hp Hs).
  - apply orb_true_iff in Hp as [Hp|Hp]; [apply (startsWith_forallb _ _ _ Hp Hs)|].
    simpl in Hs. apply andb_true_iff in Hs as [_ Hs]. apply (IH Hp Hs).
Qed.

(** A string that contains something other than white space is not empty,
    and neither is what [trim] leaves of it. *)
Lemma includes_truthy p s :
  Js.includes p s = true -> JsText.forallb Js.isWhiteSpace p = false ->
  truthy s = true /\ truthy (JsText.trim s) = true.
Proof.
  intros Hp Hws. split.
  - destruct s; [|reflexivity]. destruct p; discriminate.
  - unfold truthy. destruct (String.eqb_spec (JsText.trim s) ""); [|reflexivity].
    rewrite (includes_forallb _ _ _ Hp (trim_empty _ e)) in Hws. discriminate Hws.
Qed.

Lemma extract_search url : extractSpotifyTrackId url = search "track/" url.
Proof.
  unfold extractSpotifyTrackId. destruct (search "track/" url) as [g|] eqn:E; [reflexivity|].
  pose proof (search_longer_None "spotify.com/" "track/" url E) as E2.
  pose proof (search_longer_None "open.spotify.com/" "track/" url E) as E3.
  change (search "spotify.com/track/" url = None) in E2.
  change (search "open.spotify.com/track/" url = None) in E3.
  rewrite E2. exact E3.
Qed.

Lemma occurrences_app c a b :
  occurrences c (a ++ b) = (occurrences c a + occurrences c b)%nat.
Proof.
  induction a as [|d a IH]; [reflexivity|].
  change (String d a ++ b) with (String d (a ++ b)). simpl. rewrite IH. lia.
Qed.

Lemma occurrences_none f c s :
  JsText.forallb f s = true -> f c = false -> occurrences c s = 0%nat.
Proof.
  intros Hs Hc. induction s as [|d r IH]; [reflexivity|].
  simpl in Hs. apply andb_true_iff in Hs as [Hd Hr]. simpl. rewrite (IH Hr).
  destruct (Ascii.eqb_spec d c) as [->|_]; [|reflexivity]. congruence.
Qed.

Lemma allDigits_forallb s : allDigits s -> JsText.forallb Js.isDigit s = true.
Proof.
  unfold allDigits. induction s as [|c r IH]; [reflexivity|]. simpl.
  intros H. inversion H as [|? ? Hc Hr]; subst. rewrite Hc. apply (IH Hr).
Qed.

Lemma toString_positive_digits n : 0 < n -> JsText.forallb Js.isDigit (Js.toString n) = true.
Proof.
  intros Hn. unfold Js.toString. destruct (Z.ltb_spec n 0); [lia|].
  apply allDigits_forallb, digitsOf_allDigits; [lia | constructor].
Qed.

Lemma hexDigit_safe k : (k < 16)%N -> JsText.isUriSafe (JsText.hexDigit k) = true.
Proof.
  intros H.
  assert (Hk : (k = 0 \/ k = 1 \/ k = 2 \/ k = 3 \/ k = 4 \/ k = 5 \/ k = 6 \/ k = 7
               \/ k = 8 \/ k = 9 \/ k = 10 \/ k = 11 \/ k = 12 \/ k = 13 \/ k = 14
               \/ k = 15)%N) by lia.
  repeat (destruct Hk as [-> | Hk]); try subst k; reflexivity.
Qed.

Lemma percent_safe byte rest :
  (byte < 256)%N -> JsText.forallb JsText.isUriSafe rest = true ->
  JsText.forallb JsText.isUriSafe (JsText.percent byte rest) = true.
Proof.
  intros Hb Hr. unfold JsText.percent. cbn [JsText.forallb].
  rewrite Hr, !hexDigit_safe; [reflexivity | |].
  - apply N.mod_lt. discriminate.
  - apply N.Div0.div_lt_upper_bound. exact Hb.
Qed.

Lemma encodeURIComponent_safe s :
  JsText.forallb JsText.isUriSafe (JsText.encodeURIComponent s) = true.
Proof.
  induction s as [|c r IH]; [reflexivity|]. cbn [JsText.encodeURIComponent]. cbv zeta.
  pose proof (N_ascii_bounded c) as Hc.
  destruct (JsText.isUnreserved c) eqn:U.
  - cbn [JsText.forallb]. unfold JsText.isUriSafe at 1. rewrite U, IH. reflexivity.
  - destruct (N_of_ascii c <? 128)%N.
    + apply percent_safe; [exact Hc | exact IH].
    + assert (N_of_ascii c / 64 < 4)%N by (apply N.Div0.div_lt_upper_bound; exact Hc).
      assert (N_of_ascii c mod 64 < 64)%N by (apply N.mod_lt; discriminate).
      apply percent_safe; [lia|]. apply percent_safe; [lia | exact IH].
Qed.

(** X6: for a Spotify row the preview depends on the URL alone: the frame
    is shown exactly when a track id can be read from it, with that id;
    the test on the trimmed URL never decides. *)
Theorem spotify_preview_iff_track_id (r : Render) (snippet : MusicSnippet) :
  Snippet.audio_type snippet = "spotify" ->
  renderAudioContent r snippet
  = match search "track/" (Snippet.spotify_url snippet) with
    | Some trackId => Frame (spotifyEmbedSrc trackId (Snippet.start_time snippet))
    | None => Hint (if truthy (Snippet.spotify_url snippet)
                    then "Invalid Spotify URL format"
                    else "Paste Spotify URL above to see preview")
    end.
Proof.
  intros Hkind. unfold renderAudioContent. rewrite Hkind, extract_search.
  change (String.eqb "spotify" "spotify") with true. cbv iota.
  destruct (search "track/" (Snippet.spotify_url snippet)) as [g|] eqn:E; [|reflexivity].
  destruct (search_Some _ _ _ E) as (T & _ & I).
  destruct (includes_truthy _ _ I) as [_ Ht]; [reflexivity|].
  rewrite T, Ht. reflexivity.
Qed.

Lemma spotify_preview_iff_track_id_witness :
  renderAudioContent (render (session false [spotifySample])) spotifySample
  = Frame "https://open.spotify.com/embed/track/4uLU6hMCjMI75M1A2tKUQC?utm_source=generator&theme=0".
Proof.
  rewrite (spotify_preview_iff_track_id _ spotifySample); reflexivity.
Defined.

(** X7: for a SoundCloud row the frame is shown exactly when the URL
    contains "soundcloud.com"; the tests on the empty and on the trimmed
    URL never decide. *)
Theorem soundcloud_preview_iff_domain (r : Render) (snippet : MusicSnippet) :
  Snippet.audio_type snippet = "soundcloud" ->
  renderAudioContent r snippet
  = if Js.includes "soundcloud.com" (Snippet.soundcloud_url snippet)
    then Frame (soundCloudEmbedSrc (Snippet.soundcloud_url snippet) (Snippet.start_time snippet))
    else Hint (if truthy (Snippet.soundcloud_url snippet)
               then "Invalid SoundCloud URL - please use a link from soundcloud.com"
               else "Paste SoundCloud URL above to see preview").
Proof.
  intros Hkind. unfold renderAudioContent. rewrite Hkind.
  change (String.eqb "soundcloud" "spotify") with false.
  change (String.eqb "soundcloud" "soundcloud") with true. cbv iota.
  destruct (Js.includes "soundcloud.com" (Snippet.soundcloud_url snippet)) eqn:I.
  - destruct (includes_truthy _ _ I) as [T Ht]; [reflexivity|]. rewrite T, Ht. reflexivity.
  - rewrite !andb_false_r, andb_true_r. reflexivity.
Qed.

Lemma soundcloud_preview_iff_domain_witness :
  renderAudioContent (render (session false [soundCloudSample])) soundCloudSample
  = Frame (soundCloudEmbedSrc "https://soundcloud.com/artist/song" "1:30").
Proof.
  rewrite (soundcloud_preview_iff_domain _ soundCloudSample); reflexivity.
Defined.

(** X8: whatever is pasted as the SoundCloud URL, the address of the
    player has the parameters of the template and no others: one question
    mark, the eight ampersands of the options, and a fragment only for a
    start time above zero. *)
Theorem soundCloudEmbedSrc_keeps_template (url startTime : string) :
  occurrences "?" (soundCloudEmbedSrc url startTime) = 1%nat
  /\ occurrences "&" (soundCloudEmbedSrc url startTime) = 8%nat
  /\ occurrences "#" (soundCloudEmbedSrc url startTime)
     = (if 0 <? timeToSeconds startTime then 1%nat else 0%nat).
Proof.
  unfold soundCloudEmbedSrc. cbv zeta.
  assert (Henc : forall c, JsText.isUriSafe c = false ->
            occurrences c (JsText.encodeURIComponent (JsText.trim url)) = 0%nat)
    by (intros c; apply occurrences_none, encodeURIComponent_safe).
  assert (Hnum : forall c, Js.isDigit c = false -> (0 <? timeToSeconds startTime) = true ->
            occurrences c (Js.toString (timeToSeconds startTime)) = 0%nat).
  { intros c Hc Hpos. apply (occurrences_none Js.isDigit); [|exact Hc].
    apply toString_positive_digits. apply Z.ltb_lt, Hpos. }
  rewrite !occurrences_app, !Henc by reflexivity.
  destruct (0 <? timeToSeconds startTime) eqn:Hpos.
  - rewrite !occurrences_app, !Hnum by reflexivity. repeat split.
  - repeat split.
Qed.

(** * Uploads, lookups and loading *)

Lemma perform_upload_snippets ok title id audioUrl cleanedName st :
  snippets (perform ok title (FileChosen id audioUrl cleanedName) st)
  = mapById id (fun snippet =>
      setField F_song_name (orElse (Snippet.song_name snippet) cleanedName)
        (setField F_audio_url audioUrl snippet)) (snippets st).
Proof.
  unfold perform, finish. rewrite commit_snippets. cbn [handler].
  unfold handleFileUpload. rewrite exec_andThen, exec_saveIfFound_snippets. reflexivity.
Qed.

(** X9: choosing a file for a row stores the object URL in that row and
    names the row after the file when it has no name yet; a name that is
    there is kept, and so are the other fields and the other rows. *)
Theorem upload_names_unnamed_row ok title (id audioUrl fileName : string) (st : State)
    (i : nat) (s : MusicSnippet) :
  snippets st !! i = Some s ->
  exists s',
    snippets (perform ok title (fileChosen id audioUrl fileName) st) !! i = Some s'
    /\ (Snippet.id s <> id -> s' = s)
    /\ (Snippet.id s = id ->
        Snippet.audio_url s' = Some audioUrl
        /\ Snippet.song_name s'
           = (if String.eqb (Snippet.song_name s) "" then cleanFileName fileName
              else Snippet.song_name s)
        /\ forall f, f <> F_audio_url -> f <> F_song_name -> getField f s' = getField f s).
Proof.
  intros Hi. unfold fileChosen. rewrite perform_upload_snippets, lookup_mapById, Hi.
  cbn [option_map]. eexists. split; [reflexivity|]. split.
  - intros Hid. apply hasId_false in Hid. rewrite Hid. reflexivity.
  - intros Hid. apply hasId_true in Hid. rewrite Hid. destruct s. cbn.
    split; [reflexivity|]. split.
    + unfold orElse, truthy. destruct (String.eqb song_name ""); reflexivity.
    + intros f H1 H2. destruct f; try reflexivity; contradiction.
Qed.

Lemma upload_names_unnamed_row_witness :
  exists s',
    snippets (perform (fun _ => true) (fun _ => None)
                (fileChosen "1" "blob:7f3a" "late_night-mix.mp3")
                (session false [sampleTrack])) !! 0%nat = Some s'
    /\ (Snippet.id sampleTrack <> "1" -> s' = sampleTrack)
    /\ (Snippet.id sampleTrack = "1" ->
        Snippet.audio_url s' = Some "blob:7f3a"
        /\ Snippet.song_name s'
           = (if String.eqb (Snippet.song_name sampleTrack) "" then cleanFileName "late_night-mix.mp3"
              else Snippet.song_name sampleTrack)
        /\ forall f, f <> F_audio_url -> f <> F_song_name -> getField f s' = getField f sampleTrack).
Proof.
  apply (upload_names_unnamed_row (fun _ => true) (fun _ => None) "1" "blob:7f3a"
           "late_night-mix.mp3" (session false [sampleTrack]) 0 sampleTrack).
  reflexivity.
Defined.

(** X10: when the title lookup of a pasted URL answers with a title and
    nothing else happens meanwhile, the collection is rebuilt from the
    rows of the render in which the URL was pasted: the row gets the title
    as its name if it had none, and its URL fields are the ones from before
    the paste. *)
Theorem lookup_title_discards_pasted_url ok title (e : Event) (id url trackInfo : string)
    (st : State) (i : nat) (s : MusicSnippet) :
  (e = SpotifyUrlChanged id url /\ Js.includes "spotify.com/track/" url = true
   /\ trackTitle (title (SpotifyOEmbed url)) = Some trackInfo)
  \/ (e = SoundCloudUrlChanged id url /\ Js.includes "soundcloud.com/" url = true
      /\ trackTitle (title (SoundCloudOEmbed url)) = Some trackInfo) ->
  snippets st !! i = Some s -> Snippet.id s = id ->
  exists s',
    snippets (perform ok title e st) !! i = Some s'
    /\ Snippet.spotify_url s' = Snippet.spotify_url s
    /\ Snippet.soundcloud_url s' = Snippet.soundcloud_url s
    /\ Snippet.song_name s' = orElse (Snippet.song_name s) trackInfo.
Proof.
  intros He Hi Hid. apply hasId_true in Hid.
  assert (Hurl : forall p, p <> "" -> Js.includes p url = true -> truthy url = true).
  { intros p Hp H. destruct url; [|reflexivity]. destruct p; [contradiction | discriminate H]. }
  destruct He as [(-> & Hinc & Ht)|(-> & Hinc & Ht)].
  - rewrite perform_spotify_snippets, (Hurl "spotify.com/track/" ltac:(discriminate) Hinc), Hinc. cbn [andb].
    rewrite Ht, lookup_mapById, Hi. cbn [option_map]. rewrite Hid.
    eexists. split; [reflexivity|]. destruct s; repeat split.
  - rewrite perform_soundcloud_snippets, (Hurl "soundcloud.com/" ltac:(discriminate) Hinc), Hinc. cbn [andb].
    rewrite Ht, lookup_mapById, Hi. cbn [option_map]. rewrite Hid.
    eexists. split; [reflexivity|]. destruct s; repeat split.
Qed.

Lemma lookup_title_discards_pasted_url_witness :
  exists s',
    snippets (perform (fun _ => true) (fun _ => Some "Fetched Title")
                (SpotifyUrlChanged "1" "https://open.spotify.com/track/abc")
                (session false [sampleTrack])) !! 0%nat = Some s'
    /\ Snippet.spotify_url s' = Snippet.spotify_url sampleTrack
    /\ Snippet.soundcloud_url s' = Snippet.soundcloud_url sampleTrack
    /\ Snippet.song_name s' = orElse (Snippet.song_name sampleTrack) "Fetched Title".
Proof.
  apply (lookup_title_discards_pasted_url (fun _ => true) (fun _ => Some "Fetched Title")
           (SpotifyUrlChanged "1" "https://open.spotify.com/track/abc") "1"
           "https://open.spotify.com/track/abc" "Fetched Title"
           (session false [sampleTrack]) 0 sampleTrack).
  - left. repeat split; reflexivity.
  - reflexivity.
  - reflexivity.
Defined.

(** X11: loading the page sends no write to the table and leaves the
    collection held in local storage as it was. It writes to local storage
    in one case only: when the page ends in Local mode (no client, or the
    select failed) and local storage holds a collection that is not empty,
    the effect of lines 127-131 runs at the render after loading and
    writes back the collection that has just been read. Without a client,
    or when the select fails, the page shows what local storage holds and
    is in Local mode; when the select succeeds it shows the rows of the
    answer (none for [null]) and is in Remote mode. *)
Theorem mount_writes_back_only_what_it_read (client : bool)
    (stored0 : option (list MusicSnippet)) (answer : SelectAnswer) :
  localStorage (state (opened client stored0 answer)) = stored0
  /\ localStorage (state (opened client stored0 answer))
     = (if effectWrites (mounting answer (initialState client stored0))
        then Some (snippets (mounting answer (initialState client stored0)))
        else localStorage (mounting answer (initialState client stored0)))
  /\ effectWrites (mounting answer (initialState client stored0))
     = match client, answer, stored0 with
       | true, Rows _, _ => false
       | _, _, Some (_ :: _) => true
       | _, _, _ => false
       end
  /\ remoteCalls (state (opened client stored0 answer)) = []
  /\ snippets (state (opened client stored0 answer))
     = match client, answer with
       | true, Rows (Some rows) => rows
       | true, Rows None => []
       | _, _ => match stored0 with Some l => l | None => [] end
       end
  /\ mode (state (opened client stored0 answer))
     = match client, answer with
       | true, Rows _ => RemoteMode
       | _, _ => LocalMode
       end.
Proof.
  unfold opened, mount, fresh, mode. cbn [state].
  rewrite commit_localStorage, commit_remoteCalls, commit_snippets,
    commit_supabase, commit_useLocalStorage.
  fold (effectWrites (mounting answer (initialState client stored0))).
  unfold mounting, effectWrites.
  destruct client; [destruct answer as [[rows|]|]|];
    try (destruct stored0 as [[|x l]|]); repeat split.
Qed.

(** * Sessions without a client *)

Section LocalSessions.

Lemma Settles_after (Q Q' P : State -> Prop) seg q :
  (forall st, Q st -> Q' (seg st)) -> Settles Q' P q -> Settles Q P (after seg q).
Proof. intros Hs Hq. destruct Hq; simpl; constructor; auto. Qed.

Lemma dispatch_settles (Q P : State -> Prop) p w :
  Settles Q P p -> Q (state w) -> Forall (SettlesPending P) (inflight w) ->
  P (state (dispatch p w)) /\ Forall (SettlesPending P) (inflight (dispatch p w)).
Proof.
  intros Hp Hst Hin. destruct Hp; simpl; (split; [auto|]); auto.
  - apply Forall_app. split; [assumption|]. constructor; [assumption | constructor].
  - apply Forall_app. split; [assumption|]. constructor; [assumption | constructor].
Qed.

Lemma LocalOnly_commit_synced st :
  supabase st = false -> useLocalStorage st = true -> remoteCalls st = [] ->
  stored st = snippets st \/ (effectDue st = true /\ snippets st <> []) ->
  LocalOnly (commit st).
Proof.
  intros Hc Hf Hr Hs. unfold LocalOnly, stored.
  rewrite commit_supabase, commit_useLocalStorage, commit_remoteCalls,
    commit_localStorage, commit_snippets.
  repeat (split; [assumption|]).
  destruct (effectDue st && useLocalStorage st && (0 <? length (snippets st))%nat) eqn:E;
    [reflexivity|].
  destruct Hs as [Hs|[Hd Hne]]; [exact Hs|].
  rewrite Hd, Hf, (nonempty_length _ Hne) in E. discriminate E.
Qed.

Lemma LocalOnly_commit st : LocalOnly st -> LocalOnly (commit st).
Proof. intros (Hc & Hf & Hr & Hs). apply LocalOnly_commit_synced; auto. Qed.

(** A segment that leaves the collection and the stores alone. *)
Lemma LocalOnly_same st st' :
  LocalOnly st -> supabase st' = supabase st -> useLocalStorage st' = useLocalStorage st ->
  remoteCalls st' = remoteCalls st -> localStorage st' = localStorage st ->
  snippets st' = snippets st -> LocalOnly (commit st').
Proof.
  intros (Hc & Hf & Hr & Hs) E1 E2 E3 E4 E5.
  apply LocalOnly_commit_synced; [congruence | congruence | congruence|].
  left. unfold stored in *. rewrite E4, E5. exact Hs.
Qed.

Lemma Staged_commit l st : Staged l st -> LocalOnly (commit st).
Proof.
  intros (Hc & Hf & Hr & Hd & Hs & Hne).
  apply LocalOnly_commit_synced; auto. right. split; [exact Hd | congruence].
Qed.

Lemma Staged_setItem l v st : Staged l st -> Staged l (setItem v st).
Proof. intros H. exact H. Qed.

Lemma Staged_setSnippets l st : LocalOnly st -> l <> [] -> Staged l (setSnippets l st).
Proof. intros (Hc & Hf & Hr & Hs) Hne. repeat split; assumption. Qed.

Lemma Settles_skip_staged l : Settles (Staged l) LocalOnly skip.
Proof. constructor. apply Staged_commit. Qed.

Lemma Settles_skip_local : Settles LocalOnly LocalOnly skip.
Proof. constructor. apply LocalOnly_commit. Qed.

(** Without a client [saveSnippet] is one write to local storage. *)
Lemma Settles_save_then r id l l' q :
  r_supabase r = false -> Settles (Staged l) LocalOnly q ->
  Settles (Staged l) LocalOnly (andThen (saveIfFound r id l') q).
Proof.
  intros Hr Hq. unfold saveIfFound, saveSnippet. rewrite Hr.
  destruct (List.find _ _); cbn [negb andThen skip];
    apply (Settles_after _ (Staged l)); auto using Staged_setItem.
Qed.

Lemma Settles_saveIfFound r id l l' :
  r_supabase r = false -> Settles (Staged l) LocalOnly (saveIfFound r id l').
Proof.
  intros Hr. unfold saveIfFound, saveSnippet. rewrite Hr.
  destruct (List.find _ _); cbn [negb]; constructor; intros st H; apply (Staged_commit l); exact H.
Qed.

Lemma Settles_set (Q : State -> Prop) l q :
  (forall st, Q st -> LocalOnly st) -> l <> [] -> Settles (Staged l) LocalOnly q ->
  Settles Q LocalOnly (andThen (Ret (setSnippets l)) q).
Proof.
  intros HQ Hne Hq. cbn [andThen]. apply (Settles_after _ (Staged l)); [|exact Hq].
  intros st H. apply Staged_setSnippets; auto.
Qed.

Lemma mapById_nonempty id f l :
  existsb (hasId id) l = true -> mapById id f l <> [].
Proof. destruct l; [discriminate | discriminate]. Qed.

Lemma Settles_update st id field value :
  LocalOnly st -> existsb (hasId id) (snippets st) = true ->
  Settles (eq st) LocalOnly (updateSnippet (render st) id field value).
Proof.
  intros Hst Hrow. unfold updateSnippet. cbv zeta.
  apply Settles_set; [intros ? <-; exact Hst | apply mapById_nonempty, Hrow|].
  apply Settles_saveIfFound. apply Hst.
Qed.

Lemma Settles_fill r id trackInfo :
  r_supabase r = false -> existsb (hasId id) (r_snippets r) = true ->
  Settles LocalOnly LocalOnly (fillSongName r id trackInfo).
Proof.
  intros Hr Hrow. unfold fillSongName. cbv zeta.
  apply Settles_set; [auto | apply mapById_nonempty, Hrow|].
  apply Settles_saveIfFound, Hr.
Qed.

Lemma Settles_lookup l r id q :
  r_supabase r = false -> existsb (hasId id) (r_snippets r) = true ->
  Settles (Staged l) LocalOnly
    (Fetch (fun st => st) q (fun answer =>
       match trackTitle answer with
       | Some trackInfo => fillSongName r id trackInfo
       | None => skip
       end)).
Proof.
  intros Hr Hrow. constructor; [apply Staged_commit|].
  intros answer. destruct (trackTitle answer);
    [apply Settles_fill; assumption | apply Settles_skip_local].
Qed.

Lemma deleteLocally_store r id st :
  supabase (deleteLocally r id st) = supabase st
  /\ remoteCalls (deleteLocally r id st) = remoteCalls st
  /\ localStorage (deleteLocally r id st)
     = if negb (r_supabase r) || r_useLocalStorage r
       then Some (List.filter (fun snippet => negb (hasId id snippet)) (r_snippets r))
       else localStorage st.
Proof. unfold deleteLocally. cbv zeta. each_branch; repeat split. Qed.

Lemma togglePlayPause_store r id st :
  supabase (togglePlayPause r id st) = supabase st
  /\ remoteCalls (togglePlayPause r id st) = remoteCalls st
  /\ localStorage (togglePlayPause r id st) = localStorage st
  /\ snippets (togglePlayPause r id st) = snippets st.
Proof. unfold togglePlayPause. each_branch; repeat split. Qed.

(** Every handler started on a row of a session without a client leaves
    such a session behind, and so does what it does after its lookup. *)
Lemma handler_settles e st :
  LocalOnly st -> onRow e st = true -> Settles (eq st) LocalOnly (handler e st).
Proof.
  intros Hst Hrow. pose proof Hst as (Hc & Hf & Hr & Hs).
  assert (Hr' : r_supabase (render st) = false) by exact Hc.
  destruct e as [now | id field value | id value | id | id url | id url
                | id audioUrl cleanedName | id | id | id | id | n ok | n answer];
    cbn [handler]; cbn [onRow] in Hrow.
  - unfold addNewSnippet.
    apply Settles_set; [intros ? <-; exact Hst | |].
    + destruct (r_snippets (render st)); discriminate.
    + unfold saveSnippet. rewrite Hr'. cbn [negb]. constructor.
      intros st' H. eapply Staged_commit, Staged_setItem, H.
  - apply Settles_update; assumption.
  - unfold startTimeBlur. destruct (_ && _); [apply Settles_update; assumption|].
    constructor. intros ? <-. apply LocalOnly_commit, Hst.
  - unfold deleteSnippet. rewrite Hr'. constructor. intros ? <-.
    destruct (deleteLocally_store (render st) id st) as (E1 & E2 & E3).
    rewrite Hr' in E3. cbn [negb orb] in E3.
    apply LocalOnly_commit_synced;
      [congruence | rewrite deleteLocally_useLocalStorage; exact Hf | congruence|].
    left. unfold stored. rewrite E3, deleteLocally_snippets. reflexivity.
  - unfold handleSpotifyUrlChange. cbv zeta.
    apply Settles_set; [intros ? <-; exact Hst | apply mapById_nonempty, Hrow|].
    apply Settles_save_then; [exact Hr'|].
    destruct (_ && _); [apply Settles_lookup; assumption | apply Settles_skip_staged].
  - unfold handleSoundCloudUrlChange. cbv zeta.
    apply Settles_set; [intros ? <-; exact Hst | apply mapById_nonempty, Hrow|].
    apply Settles_save_then; [exact Hr'|].
    destruct (_ && _); [apply Settles_lookup; assumption | apply Settles_skip_staged].
  - unfold handleFileUpload. cbv zeta.
    apply Settles_set; [intros ? <-; exact Hst | apply mapById_nonempty, Hrow|].
    apply Settles_saveIfFound, Hr'.
  - constructor. intros ? <-.
    destruct (togglePlayPause_store (render st) id st) as (E1 & E2 & E3 & E4).
    apply (LocalOnly_same st); auto. apply togglePlayPause_useLocalStorage.
  - unfold getCurrentPlaybackTime. destruct (_ !! _); [apply Settles_update; assumption|].
    constructor. intros ? <-. apply LocalOnly_commit, Hst.
  - constructor. intros ? <-. apply (LocalOnly_same st); auto.
  - constructor. intros ? <-. apply (LocalOnly_same st); auto.
  - constructor. intros ? <-. apply LocalOnly_commit, Hst.
  - constructor. intros ? <-. apply LocalOnly_commit, Hst.
Qed.

Lemma step_local e w :
  LocalOnly (state w) -> Forall (SettlesPending LocalOnly) (inflight w) ->
  onRow e (state w) = true ->
  LocalOnly (state (step e w)) /\ Forall (SettlesPending LocalOnly) (inflight (step e w)).
Proof.
  intros Hst Hin Hrow.
  assert (Hdel : forall n, Forall (SettlesPending LocalOnly) (delete n (inflight w)))
    by (intros n; apply Forall_delete; exact Hin).
  destruct e as [now | id field value | id value | id | id url | id url
                | id audioUrl cleanedName | id | id | id | id | n ok | n answer];
    try (apply (dispatch_settles (eq (state w))); [apply handler_settles | | ]; auto).
  - simpl. destruct (inflight w !! n) as [[k|k]|] eqn:E; try (split; assumption).
    rewrite Forall_lookup in Hin.
    apply (dispatch_settles LocalOnly); [exact (Hin n _ E ok) | exact Hst | apply Hdel].
  - simpl. destruct (inflight w !! n) as [[k|k]|] eqn:E; try (split; assumption).
    rewrite Forall_lookup in Hin.
    apply (dispatch_settles LocalOnly); [exact (Hin n _ E answer) | exact Hst | apply Hdel].
Qed.

Lemma run_local es : forall w,
  LocalOnly (state w) -> Forall (SettlesPending LocalOnly) (inflight w) ->
  onRows es w -> LocalOnly (state (run es w)).
Proof.
  induction es as [|e es IH]; intros w Hst Hin Hes; [exact Hst|].
  destruct Hes as [He Hes]. destruct (step_local e w Hst Hin He) as [Hst' Hin'].
  simpl. apply IH; assumption.
Qed.

Lemma opened_local stored0 answer : LocalOnly (state (opened false stored0 answer)).
Proof.
  unfold opened, mount, mounting, fresh. cbn [state initialState supabase].
  apply LocalOnly_commit_synced; unfold stored, loadSnippetsFromLocalStorage; cbn;
    destruct stored0; try reflexivity; left; reflexivity.
Qed.

Lemma reopen_local answer st :
  supabase st = false -> snippets (reopen answer st) = stored st.
Proof.
  intros Hc. unfold reopen, mount, mounting, stored. rewrite Hc, commit_snippets.
  cbn. unfold loadSnippetsFromLocalStorage. cbn. destruct (localStorage st); reflexivity.
Qed.

End LocalSessions.

(** X12: in a session without a client nothing is ever sent to the table,
    and after every event the collection is the one that local storage
    holds: opening the page again shows the same snippets. The events are
    those of the rows of the page and the answers of the title lookups,
    in any order. *)
Theorem session_without_client_is_mirrored (stored0 : option (list MusicSnippet))
    (answer answer' : SelectAnswer) (es : list Event) :
  onRows es (opened false stored0 answer) ->
  remoteCalls (state (run es (opened false stored0 answer))) = []
  /\ mode (state (run es (opened false stored0 answer))) = LocalMode
  /\ snippets (reopen answer' (state (run es (opened false stored0 answer))))
     = snippets (state (run es (opened false stored0 answer))).
Proof.
  intros Hes.
  destruct (run_local es (opened false stored0 answer)) as (Hc & Hf & Hr & Hs);
    [apply opened_local | constructor | exact Hes|].
  split; [exact Hr|]. split; [apply mode_local, Hf|].
  rewrite reopen_local; assumption.
Qed.

Lemma session_without_client_is_mirrored_witness :
  remoteCalls (state (run localSample (opened false None (Rows None)))) = []
  /\ mode (state (run localSample (opened false None (Rows None)))) = LocalMode
  /\ snippets (reopen SelectFailed (state (run localSample (opened false None (Rows None)))))
     = snippets (state (run localSample (opened false None (Rows None)))).
Proof.
  apply (session_without_client_is_mirrored None (Rows None) SelectFailed localSample).
  vm_compute. repeat split.
Defined.

(** * Failures while already in Local mode, and deleting *)

(** X13: in a session with a client that is already in Local mode, a
    snippet that is added while the table keeps failing stays on the page
    but not in local storage: the render after the click stores it, and
    the failure handler then writes the collection of the render in which
    the click was handled, which does not have it. Opening the page again
    while the table fails shows the collection without the snippet. *)
Theorem failed_add_in_local_mode_is_dropped_from_storage (st : State) (now : Z) :
  supabase st = true -> useLocalStorage st = true ->
  ~ In (Js.toString now) (ids (snippets st)) ->
  snippets (state (run [AddClicked now; RemoteAnswered 0 false] (fresh st)))
  = (snippets st ++ [newSnippet now (render st)])%list
  /\ localStorage (state (step (AddClicked now) (fresh st)))
     = Some (snippets st ++ [newSnippet now (render st)])%list
  /\ localStorage (state (run [AddClicked now; RemoteAnswered 0 false] (fresh st)))
     = Some (snippets st)
  /\ snippets (reopen SelectFailed
                 (state (run [AddClicked now; RemoteAnswered 0 false] (fresh st))))
     = snippets st.
Proof.
  intros Hsup Hflag Hfresh.
  change (run [AddClicked now; RemoteAnswered 0 false] (fresh st))
    with (step (RemoteAnswered 0 false) (step (AddClicked now) (fresh st))).
  rewrite step_add_remote by exact Hsup.
  cbn [fresh inflight state app].
  set (l := (snippets st ++ [newSnippet now (render st)])%list).
  set (st1 := commit _).
  assert (Hl : (0 <? length l)%nat = true)
    by (subst l; rewrite length_app; cbn [length]; apply Nat.ltb_lt; lia).
  assert (H1 : snippets st1 = l) by (subst st1; rewrite commit_snippets; reflexivity).
  assert (H2 : useLocalStorage st1 = true)
    by (subst st1; rewrite commit_useLocalStorage; exact Hflag).
  assert (H3 : supabase st1 = true) by (subst st1; rewrite commit_supabase; exact Hsup).
  assert (H4 : localStorage st1 = Some l).
  { subst st1. rewrite commit_localStorage.
    cbn [send setSaving setSnippets effectDue useLocalStorage snippets].
    rewrite Hflag. fold l. rewrite Hl. reflexivity. }
  assert (H5 : effectDue st1 = false) by reflexivity.
  split; [|split; [exact H4|]].
  - cbn [step inflight lookup list_lookup saveSnippetAnswered dispatch state].
    rewrite commit_snippets. exact H1.
  - assert (H6 : localStorage
                   (state (step (RemoteAnswered 0 false)
                             {| state := st1;
                                inflight := [AwaitRemote (saveSnippetAnswered (render st)
                                                            (newSnippet now (render st)))] |}))
                 = Some (snippets st)).
    { cbn [step inflight lookup list_lookup saveSnippetAnswered dispatch state].
      rewrite commit_localStorage.
      cbn [setSaving setUseLocalStorage setItem effectDue useLocalStorage snippets
           localStorage render r_snippets].
      rewrite H5, H2. cbn [Bool.eqb negb orb andb].
      rewrite replaceById_absent by exact Hfresh. reflexivity. }
    split; [exact H6|].
    assert (H7 : supabase
                   (state (step (RemoteAnswered 0 false)
                             {| state := st1;
                                inflight := [AwaitRemote (saveSnippetAnswered (render st)
                                                            (newSnippet now (render st)))] |}))
                 = true).
    { cbn [step inflight lookup list_lookup saveSnippetAnswered dispatch state].
      rewrite commit_supabase. exact H3. }
    unfold reopen, mount, mounting. rewrite commit_snippets, H6, H7. reflexivity.
Qed.

Lemma failed_add_in_local_mode_is_dropped_from_storage_witness :
  snippets (state (run [AddClicked 1700000000001; RemoteAnswered 0 false]
                     (fresh (state afterFailedAdd))))
  = (snippets (state afterFailedAdd)
     ++ [newSnippet 1700000000001 (render (state afterFailedAdd))])%list
  /\ localStorage (state (step (AddClicked 1700000000001) (fresh (state afterFailedAdd))))
     = Some (snippets (state afterFailedAdd)
             ++ [newSnippet 1700000000001 (render (state afterFailedAdd))])%list
  /\ localStorage (state (run [AddClicked 1700000000001; RemoteAnswered 0 false]
                            (fresh (state afterFailedAdd))))
     = Some (snippets (state afterFailedAdd))
  /\ snippets (reopen SelectFailed
                 (state (run [AddClicked 1700000000001; RemoteAnswered 0 false]
                           (fresh (state afterFailedAdd)))))
     = snippets (state afterFailedAdd).
Proof.
  apply (failed_add_in_local_mode_is_dropped_from_storage (state afterFailedAdd) 1700000000001).
  - vm_compute. reflexivity.
  - vm_compute. reflexivity.
  - vm_compute. intros [H|[]]. discriminate H.
Defined.

(** * Deleting, start times and playback *)

Lemma deleteLocally_audioRefs r id st : audioRefs (deleteLocally r id st) !! id = None.
Proof.
  unfold deleteLocally. cbv zeta.
  destruct (negb (r_supabase r) || r_useLocalStorage r);
    cbn [setItem setSnippets audioRefs];
    destruct (audioRefs st !! id) eqn:E;
    destruct (isPlaying (r_currentlyPlaying r) id);
    cbn [setCurrentlyPlaying setAudioRefs audioRefs];
    first [apply lookup_delete_eq | exact E].
Qed.

Lemma deleteLocally_currentlyPlaying r id st :
  currentlyPlaying (deleteLocally r id st)
  = if isPlaying (r_currentlyPlaying r) id then None else currentlyPlaying st.
Proof. unfold deleteLocally. cbv zeta. each_branch; reflexivity. Qed.

Lemma filter_no_id id l :
  ~ In id (ids (List.filter (fun snippet => negb (hasId id snippet)) l)).
Proof.
  induction l as [|x l IH]; [intros []|]. simpl.
  destruct (hasId id x) eqn:E; [exact IH|]. simpl.
  intros [H|H]; [apply hasId_false in E; contradiction | exact (IH H)].
Qed.

(** X14: deleting a row takes every snippet with its id off the page and
    keeps the others in their order, releases the audio element of the row
    and clears the playing mark if the row was playing, whatever the table
    answers; when the table fails, the session is in Local mode
    afterwards. *)
Theorem delete_removes_row_whatever_the_answer ok title (id : string) (st : State) :
  snippets (perform ok title (DeleteClicked id) st)
  = List.filter (fun snippet => negb (hasId id snippet)) (snippets st)
  /\ ~ In id (ids (snippets (perform ok title (DeleteClicked id) st)))
  /\ audioRefs (perform ok title (DeleteClicked id) st) !! id = None
  /\ currentlyPlaying (perform ok title (DeleteClicked id) st)
     = (if isPlaying (currentlyPlaying st) id then None else currentlyPlaying st)
  /\ mode (perform ok title (DeleteClicked id) st)
     = (if supabase st && negb (ok (DeleteById id)) then LocalMode else mode st).
Proof.
  rewrite perform_delete_snippets.
  split; [reflexivity|]. split; [apply filter_no_id|].
  unfold perform, finish, mode.
  rewrite commit_audioRefs, commit_currentlyPlaying, commit_supabase, commit_useLocalStorage.
  cbn [handler]. unfold deleteSnippet. cbn [render r_supabase].
  destruct (supabase st) eqn:Hsup; cbn [exec deleteSnippetAnswered].
  - rewrite deleteLocally_audioRefs, deleteLocally_currentlyPlaying,
      deleteLocally_useLocalStorage.
    destruct (deleteLocally_store (render st) id
                (if ok (DeleteById id)
                 then commit (send (DeleteById id) st)
                 else setUseLocalStorage true (commit (send (DeleteById id) st))))
      as (-> & _).
    cbn [render r_currentlyPlaying].
    destruct (ok (DeleteById id));
      cbn [setUseLocalStorage currentlyPlaying supabase useLocalStorage negb andb];
      rewrite ?commit_currentlyPlaying, ?commit_supabase, ?commit_useLocalStorage;
      cbn [send currentlyPlaying supabase useLocalStorage]; rewrite ?Hsup;
      repeat split.
  - rewrite deleteLocally_audioRefs, deleteLocally_currentlyPlaying,
      deleteLocally_useLocalStorage.
    destruct (deleteLocally_store (render st) id st) as (-> & _).
    rewrite Hsup. repeat split.
Qed.

(** X15: when the start-time input of a row loses focus, the start time of
    the row is afterwards empty or of the form the validator accepts; a
    start time that is empty or accepted is left as it is. *)
Theorem blur_leaves_valid_start_time ok title (id : string) (st : State)
    (i : nat) (s : MusicSnippet) :
  snippets st !! i = Some s -> Snippet.id s = id ->
  exists s',
    snippets (perform ok title (StartTimeBlurred id (Snippet.start_time s)) st) !! i = Some s'
    /\ (Snippet.start_time s' = "" \/ validateTimeFormat (Snippet.start_time s') = true)
    /\ (Snippet.start_time s = "" \/ validateTimeFormat (Snippet.start_time s) = true ->
        s' = s).
Proof.
  intros Hi Hid. apply hasId_true in Hid.
  unfold perform. cbn [handler]. unfold startTimeBlur.
  destruct (validateTimeFormat (Snippet.start_time s)) eqn:Hv;
    [|destruct (String.eqb_spec (Snippet.start_time s) "") as [He|He]]; cbn [negb andb].
  - exists s. unfold finish. rewrite commit_snippets. cbn [skip exec].
    split; [exact Hi|]. split; [right; exact Hv | reflexivity].
  - exists s. unfold finish. rewrite commit_snippets. cbn [skip exec].
    split; [exact Hi|]. split; [left; exact He | reflexivity].
  - change (finish ok title (updateSnippet (render st) id F_start_time "0:00") st)
      with (perform ok title (FieldChanged id F_start_time "0:00") st).
    rewrite perform_update_snippets, lookup_mapById, Hi. cbn [option_map]. rewrite Hid.
    eexists. split; [reflexivity|]. split.
    + right. destruct s; reflexivity.
    + intros [H|H]; [contradiction | discriminate H].
Qed.

Lemma blur_leaves_valid_start_time_witness :
  exists s',
    snippets (perform allOk noTitle
                (StartTimeBlurred "a" (Snippet.start_time (setField F_start_time "7" sampleA)))
                (session false [setField F_start_time "7" sampleA])) !! 0%nat = Some s'
    /\ (Snippet.start_time s' = "" \/ validateTimeFormat (Snippet.start_time s') = true)
    /\ (Snippet.start_time (setField F_start_time "7" sampleA) = ""
        \/ validateTimeFormat (Snippet.start_time (setField F_start_time "7" sampleA)) = true ->
        s' = setField F_start_time "7" sampleA).
Proof.
  apply (blur_leaves_valid_start_time allOk noTitle "a"
           (session false [setField F_start_time "7" sampleA]) 0
           (setField F_start_time "7" sampleA)); reflexivity.
Defined.

Section ValidTimes.

Lemma timeToSeconds_digits1 a x y :
  0 <= a < 10 -> 0 <= x < 10 -> 0 <= y < 10 ->
  timeToSeconds (String (Js.digitChar a)
                   (String ":" (String (Js.digitChar x) (String (Js.digitChar y) ""))))
  = a * 60 + (10 * x + y).
Proof.
  intros Ha Hx Hy. unfold timeToSeconds.
  pose proof (noColon_digits1 _ (isDigit_digitChar a Ha)) as Hn1.
  pose proof (noColon_digits2 _ _ (isDigit_digitChar x Hx) (isDigit_digitChar y Hy)) as Hn2.
  change (String (Js.digitChar a) (String ":" ?r)) with (String (Js.digitChar a) "" ++ String ":" r).
  rewrite split_app_colon, split_noColon by assumption.
  rewrite parseInt_digit1, parseInt_digit2 by assumption. reflexivity.
Qed.

Lemma timeToSeconds_digits2 a b x y :
  0 <= a < 10 -> 0 <= b < 10 -> 0 <= x < 10 -> 0 <= y < 10 ->
  timeToSeconds (String (Js.digitChar a) (String (Js.digitChar b)
                   (String ":" (String (Js.digitChar x) (String (Js.digitChar y) "")))))
  = (10 * a + b) * 60 + (10 * x + y).
Proof.
  intros Ha Hb Hx Hy. unfold timeToSeconds.
  pose proof (noColon_digits2 _ _ (isDigit_digitChar a Ha) (isDigit_digitChar b Hb)) as Hn1.
  pose proof (noColon_digits2 _ _ (isDigit_digitChar x Hx) (isDigit_digitChar y Hy)) as Hn2.
  change (String (Js.digitChar a) (String (Js.digitChar b) (String ":" ?r)))
    with (String (Js.digitChar a) (String (Js.digitChar b) "") ++ String ":" r).
  rewrite split_app_colon, split_noColon by assumption.
  rewrite !parseInt_digit2 by assumption. reflexivity.
Qed.

End ValidTimes.

(** X16: a start time that the validator accepts stands for a number of
    seconds between 0 and 6039 (99 minutes and 99 seconds), and for 0 only
    when it is "0:00" or "00:00". *)
Theorem valid_start_time_range (s : string) :
  validateTimeFormat s = true ->
  0 <= timeToSeconds s <= 6039
  /\ (timeToSeconds s = 0 -> s = "0:00" \/ s = "00:00").
Proof.
  intros Hv. destruct (validate_shape s Hv) as
    [(ca & cx & cy & -> & Ha & Hx & Hy) | (ca & cb & cx & cy & -> & Ha & Hb & Hx & Hy)].
  - destruct (decVal_digit ca Ha) as (a & Hra & _ & ->).
    destruct (decVal_digit cx Hx) as (x & Hrx & _ & ->).
    destruct (decVal_digit cy Hy) as (y & Hry & _ & ->).
    rewrite timeToSeconds_digits1 by assumption. split; [lia|].
    intros H0. assert (a = 0 /\ x = 0 /\ y = 0) as (-> & -> & ->) by lia.
    left. reflexivity.
  - destruct (decVal_digit ca Ha) as (a & Hra & _ & ->).
    destruct (decVal_digit cb Hb) as (b & Hrb & _ & ->).
    destruct (decVal_digit cx Hx) as (x & Hrx & _ & ->).
    destruct (decVal_digit cy Hy) as (y & Hry & _ & ->).
    rewrite timeToSeconds_digits2 by assumption. split; [lia|].
    intros H0. assert (a = 0 /\ b = 0 /\ x = 0 /\ y = 0) as (-> & -> & -> & ->) by lia.
    right. reflexivity.
Qed.

Lemma valid_start_time_range_witness :
  0 <= timeToSeconds "99:99" <= 6039
  /\ (timeToSeconds "99:99" = 0 -> "99:99" = "0:00" \/ "99:99" = "00:00").
Proof. apply (valid_start_time_range "99:99"). reflexivity. Defined.

(** X17: pressing play on a row with an uploaded file that is not playing
    starts its audio element at the start time of the row, read by
    [timeToSeconds], unless the start time is empty or "0:00", in which
    case the element goes on from where it stood; the row becomes the one
    that plays and every other element is paused. *)
Theorem play_seeks_file_to_start_time ok title (id : string) (st : State)
    (audio : Audio) (s : MusicSnippet) :
  audioRefs st !! id = Some audio -> List.find (hasId id) (snippets st) = Some s ->
  isPlaying (currentlyPlaying st) id = false ->
  Snippet.audio_type s = "file" ->
  audioRefs (perform ok title (PlayPauseClicked id) st) !! id
  = Some {| paused := false;
            currentTime :=
              if truthy (Snippet.start_time s)
                 && negb (String.eqb (Snippet.start_time s) "0:00")
              then timeToSeconds (Snippet.start_time s) else currentTime audio |}
  /\ currentlyPlaying (perform ok title (PlayPauseClicked id) st) = Some id
  /\ (forall id' a, id' <> id ->
        audioRefs (perform ok title (PlayPauseClicked id) st) !! id' = Some a ->
        paused a = true).
Proof.
  intros Ha Hfind Hnot Hkind. unfold perform, finish. cbn [handler exec].
  rewrite commit_audioRefs, commit_currentlyPlaying.
  unfold togglePlayPause. cbn [render r_snippets r_currentlyPlaying].
  rewrite Ha, Hfind, Hnot, Hkind. change (String.eqb "file" "file") with true.
  cbn [andb setCurrentlyPlaying setAudioRefs audioRefs currentlyPlaying].
  split; [|split; [reflexivity|]].
  - rewrite lookup_insert_eq. destruct (truthy _ && negb _); reflexivity.
  - intros id' a Hne. rewrite lookup_insert_ne, lookup_fmap by congruence.
    destruct (audioRefs st !! id') as [b|]; [|discriminate]. intros [= <-]. reflexivity.
Qed.

Lemma play_seeks_file_to_start_time_witness :
  audioRefs (perform allOk noTitle (PlayPauseClicked "a") playableSession) !! "a"
  = Some {| paused := false; currentTime := 90 |}.
Proof.
  destruct (play_seeks_file_to_start_time allOk noTitle "a" playableSession
              {| paused := true; currentTime := 12 |} (setField F_start_time "1:30" sampleA))
    as [H _]; [vm_compute; reflexivity ..|].
  exact H.
Defined.

(** X18: the clock button stores the position of the audio element in
    the start time of the row in a form that [timeToSeconds] reads back as
    that position: pressing play later starts there. *)
Theorem captured_position_reads_back ok title (id : string) (st : State) (audio : Audio)
    (i : nat) (s : MusicSnippet) :
  audioRefs st !! id = Some audio -> 0 <= currentTime audio ->
  snippets st !! i = Some s -> Snippet.id s = id ->
  exists s',
    snippets (perform ok title (CaptureTimeClicked id) st) !! i = Some s'
    /\ timeToSeconds (Snippet.start_time s') = currentTime audio
    /\ (0 < currentTime audio ->
        truthy (Snippet.start_time s') && negb (String.eqb (Snippet.start_time s') "0:00")
        = true).
Proof.
  intros Ha Ht Hi Hid. apply hasId_true in Hid.
  rewrite (perform_capture ok title id audio st Ha), perform_update_snippets,
    lookup_mapById, Hi.
  cbn [option_map]. rewrite Hid. eexists. split; [reflexivity|].
  replace (Snippet.start_time _) with (secondsToTime (currentTime audio))
    by (destruct s; reflexivity).
  pose proof (timeToSeconds_secondsToTime _ Ht) as Hback.
  split; [exact Hback|]. intros Hpos.
  unfold truthy. rewrite secondsToTime_nonempty. cbn [negb andb].
  apply negb_true_iff, String.eqb_neq. intros E. rewrite E in Hback.
  change (timeToSeconds "0:00") with 0 in Hback. lia.
Qed.

Lemma captured_position_reads_back_witness :
  exists s',
    snippets (perform allOk noTitle (CaptureTimeClicked "a") playableSession) !! 0%nat = Some s'
    /\ timeToSeconds (Snippet.start_time s') = 12
    /\ (0 < 12 ->
        truthy (Snippet.start_time s') && negb (String.eqb (Snippet.start_time s') "0:00")
        = true).
Proof.
  apply (captured_position_reads_back allOk noTitle "a" playableSession
           {| paused := true; currentTime := 12 |} 0
           (setField F_start_time "1:30" sampleA)).
  - vm_compute. reflexivity.
  - simpl. lia.
  - reflexivity.
  - reflexivity.
Defined.

(** * The client *)

(** X19: [getSupabase] keeps what it returns: once a client has been
    created every later call returns that client, whatever the settings
    are by then; a call that finds a setting missing or empty returns
    [null] and keeps nothing, and the first call that finds both settings
    creates the client from them. *)
Theorem getSupabase_keeps_first_client (Client : Type)
    (createClient : string -> string -> Client) :
  (forall env inst,
      snd (getSupabase Client createClient env inst)
      = fst (getSupabase Client createClient env inst))
  /\ (forall c envs,
        getSupabaseCalls Client createClient envs (Some c) = map (fun _ => Some c) envs)
  /\ (forall env,
        fst (getSupabase Client createClient env None)
        = match supabaseUrl env, supabaseKey env with
          | Some url, Some key =>
              if truthy url && truthy key then Some (createClient url key) else None
          | _, _ => None
          end).
Proof.
  split; [|split].
  - intros env [c|]; cbn [getSupabase]; [reflexivity|].
    destruct (unset _ || unset _); reflexivity.
  - intros c envs. induction envs as [|env envs IH]; [reflexivity|].
    cbn [getSupabaseCalls getSupabase map]. rewrite IH. reflexivity.
  - intros [[url|] [key|]]; cbn [getSupabase supabaseUrl supabaseKey unset orb];
      try reflexivity.
    + destruct (truthy url), (truthy key); reflexivity.
    + destruct (truthy url); reflexivity.
Qed.

(** * Sessions in Remote mode *)

Section RemoteSessions.

Variable I : State -> Prop.

Lemma KeepsWhenOk_skip : KeepsWhenOk I skip.
Proof. constructor. auto. Qed.

Lemma KeepsWhenOk_after seg q :
  (forall st, I st -> I (seg st)) -> KeepsWhenOk I q -> KeepsWhenOk I (after seg q).
Proof. intros Hseg Hq. destruct Hq; constructor; auto. Qed.

Lemma KeepsWhenOk_andThen p q :
  KeepsWhenOk I p -> KeepsWhenOk I q -> KeepsWhenOk I (andThen p q).
Proof.
  intros Hp Hq. induction Hp as [seg Hs | seg call k Hs Hk IH | seg l k Hs Hk IH]; simpl.
  - apply KeepsWhenOk_after; assumption.
  - constructor; assumption.
  - constructor; assumption.
Qed.

Hypothesis I_commit : forall st, I st -> I (commit st).
Hypothesis I_send : forall c st, I st -> I (send c st).

Lemma dispatch_when_ok p w :
  KeepsWhenOk I p -> I (state w) -> Forall (KeepsPendingWhenOk I) (inflight w) ->
  I (state (dispatch p w)) /\ Forall (KeepsPendingWhenOk I) (inflight (dispatch p w)).
Proof.
  intros Hp Hst Hin. destruct Hp; simpl; (split; [auto|]); auto.
  - apply Forall_app. split; [assumption|]. constructor; [assumption | constructor].
  - apply Forall_app. split; [assumption|]. constructor; [assumption | constructor].
Qed.

Lemma run_when_ok es : forall w,
  (forall e st, I st -> KeepsWhenOk I (handler e st)) ->
  forallb succeeds es = true ->
  I (state w) -> Forall (KeepsPendingWhenOk I) (inflight w) ->
  I (state (run es w)).
Proof.
  induction es as [|e es IH]; intros w Hh Hes Hst Hin; [exact Hst|].
  cbn [forallb] in Hes. apply andb_true_iff in Hes as [He Hes].
  assert (Hdel : forall n, Forall (KeepsPendingWhenOk I) (delete n (inflight w)))
    by (intros n; apply Forall_delete; exact Hin).
  assert (Hstep : I (state (step e w))
                  /\ Forall (KeepsPendingWhenOk I) (inflight (step e w))).
  { destruct e as [now | id field value | id value | id | id url | id url
                  | id audioUrl cleanedName | id | id | id | id | n ok | n answer];
      try (apply dispatch_when_ok; [apply Hh | |]; assumption).
    - simpl in He. subst ok. simpl.
      destruct (inflight w !! n) as [[k|k]|] eqn:E; try (split; assumption).
      rewrite Forall_lookup in Hin.
      apply dispatch_when_ok; [exact (Hin n _ E) | exact Hst | apply Hdel].
    - simpl. destruct (inflight w !! n) as [[k|k]|] eqn:E; try (split; assumption).
      rewrite Forall_lookup in Hin.
      apply dispatch_when_ok; [exact (Hin n _ E answer) | exact Hst | apply Hdel]. }
  destruct Hstep as [Hst' Hin']. simpl. apply IH; assumption.
Qed.

End RemoteSessions.

Section RemoteOnlyKept.

Variable blob : option (list MusicSnippet).

Lemma RemoteOnly_commit st : RemoteOnly blob st -> RemoteOnly blob (commit st).
Proof.
  intros (Hc & Hf & Hs). unfold RemoteOnly.
  rewrite commit_supabase, commit_useLocalStorage, commit_localStorage, Hf, andb_false_r.
  auto.
Qed.

Lemma RemoteOnly_save r snippet :
  r_supabase r = true -> KeepsWhenOk (RemoteOnly blob) (saveSnippet r snippet).
Proof.
  intros Hr. unfold saveSnippet. rewrite Hr. cbn [negb].
  constructor; [auto|]. constructor. auto.
Qed.

Lemma RemoteOnly_saveIfFound r id l :
  r_supabase r = true -> KeepsWhenOk (RemoteOnly blob) (saveIfFound r id l).
Proof.
  intros Hr. unfold saveIfFound.
  destruct (List.find _ _); [apply RemoteOnly_save, Hr | apply KeepsWhenOk_skip].
Qed.

Lemma RemoteOnly_set_then_save r id l :
  r_supabase r = true ->
  KeepsWhenOk (RemoteOnly blob) (andThen (Ret (setSnippets l)) (saveIfFound r id l)).
Proof.
  intros Hr. apply KeepsWhenOk_andThen; [constructor; auto | apply RemoteOnly_saveIfFound, Hr].
Qed.

Lemma RemoteOnly_handler e st :
  RemoteOnly blob st -> KeepsWhenOk (RemoteOnly blob) (handler e st).
Proof.
  intros (Hc & Hf & Hs).
  assert (Hr : r_supabase (render st) = true) by exact Hc.
  assert (Hr' : r_useLocalStorage (render st) = false) by exact Hf.
  destruct e as [now | id field value | id value | id | id url | id url
                | id audioUrl cleanedName | id | id | id | id | n ok | n answer];
    cbn [handler].
  - apply KeepsWhenOk_andThen; [constructor; auto | apply RemoteOnly_save, Hr].
  - apply RemoteOnly_set_then_save, Hr.
  - unfold startTimeBlur.
    destruct (_ && _); [apply RemoteOnly_set_then_save, Hr | apply KeepsWhenOk_skip].
  - unfold deleteSnippet. rewrite Hr. constructor; [auto|]. constructor.
    intros st' (Hc' & Hf' & Hs'). unfold RemoteOnly.
    destruct (deleteLocally_store (render st) id st') as (E1 & _ & E3).
    rewrite E1, deleteLocally_useLocalStorage, E3, Hr, Hr'. auto.
  - unfold handleSpotifyUrlChange. cbv zeta.
    apply KeepsWhenOk_andThen; [constructor; auto|].
    apply KeepsWhenOk_andThen; [apply RemoteOnly_saveIfFound, Hr|].
    destruct (_ && _); [|apply KeepsWhenOk_skip]. constructor; [auto|].
    intros a. destruct (trackTitle a);
      [apply RemoteOnly_set_then_save, Hr | apply KeepsWhenOk_skip].
  - unfold handleSoundCloudUrlChange. cbv zeta.
    apply KeepsWhenOk_andThen; [constructor; auto|].
    apply KeepsWhenOk_andThen; [apply RemoteOnly_saveIfFound, Hr|].
    destruct (_ && _); [|apply KeepsWhenOk_skip]. constructor; [auto|].
    intros a. destruct (trackTitle a);
      [apply RemoteOnly_set_then_save, Hr | apply KeepsWhenOk_skip].
  - apply RemoteOnly_set_then_save, Hr.
  - constructor. intros st' (Hc' & Hf' & Hs'). unfold RemoteOnly.
    destruct (togglePlayPause_store (render st) id st') as (E1 & _ & E3 & _).
    rewrite E1, togglePlayPause_useLocalStorage, E3. auto.
  - unfold getCurrentPlaybackTime.
    destruct (_ !! _); [apply RemoteOnly_set_then_save, Hr | apply KeepsWhenOk_skip].
  - constructor. auto.
  - constructor. auto.
  - apply KeepsWhenOk_skip.
  - apply KeepsWhenOk_skip.
Qed.

End RemoteOnlyKept.

(** X20: a session with a client whose rows were loaded from the table
    stays in Remote mode and never writes to local storage as long as no
    request fails, whatever is done on the page and in whichever order the
    answers arrive. *)
Theorem remote_session_leaves_local_storage_alone (stored0 : option (list MusicSnippet))
    (rows : option (list MusicSnippet)) (es : list Event) :
  forallb succeeds es = true ->
  mode (state (run es (opened true stored0 (Rows rows)))) = RemoteMode
  /\ localStorage (state (run es (opened true stored0 (Rows rows)))) = stored0.
Proof.
  intros Hes.
  destruct (run_when_ok (RemoteOnly stored0) (RemoteOnly_commit stored0)
              (fun c st H => H) es (opened true stored0 (Rows rows))) as (Hc & Hf & Hs).
  - intros e st. apply RemoteOnly_handler.
  - exact Hes.
  - unfold opened, mount, mounting. cbn [fresh state initialState supabase].
    apply RemoteOnly_commit. repeat split.
  - constructor.
  - split; [|exact Hs]. unfold mode. rewrite Hc, Hf. reflexivity.
Qed.

Lemma remote_session_leaves_local_storage_alone_witness :
  mode (state (run remoteSample (opened true (Some [sampleA]) (Rows None)))) = RemoteMode
  /\ localStorage (state (run remoteSample (opened true (Some [sampleA]) (Rows None))))
     = Some [sampleA].
Proof.
  apply (remote_session_leaves_local_storage_alone (Some [sampleA]) None remoteSample).
  reflexivity.
Defined.

(** * Addresses built from pasted text, and edits of rows that are gone *)

(** X21: whatever URL the track id was read from, the address of the
    Spotify frame has the parameters of the template and no others: one
    question mark and one ampersand, and a second ampersand, for the
    parameter [t], exactly when the start time is above zero. *)
Theorem spotifyEmbedSrc_keeps_template (url trackId startTime : string) :
  extractSpotifyTrackId url = Some trackId ->
  occurrences "?" (spotifyEmbedSrc trackId startTime) = 1%nat
  /\ occurrences "#" (spotifyEmbedSrc trackId startTime) = 0%nat
  /\ occurrences "&" (spotifyEmbedSrc trackId startTime)
     = (if 0 <? timeToSeconds startTime then 2%nat else 1%nat).
Proof.
  rewrite extract_search. intros H. destruct (search_Some _ _ _ H) as (_ & Hal & _).
  assert (Hid : forall c, JsText.isAlnum c = false -> occurrences c trackId = 0%nat)
    by (intros c; apply occurrences_none, Hal).
  assert (Hnum : forall c, Js.isDigit c = false -> (0 <? timeToSeconds startTime) = true ->
            occurrences c (Js.toString (timeToSeconds startTime)) = 0%nat).
  { intros c Hc Hpos. apply (occurrences_none Js.isDigit); [|exact Hc].
    apply toString_positive_digits. apply Z.ltb_lt, Hpos. }
  unfold spotifyEmbedSrc. cbv zeta.
  rewrite !occurrences_app, !Hid by reflexivity.
  destruct (0 <? timeToSeconds startTime) eqn:Hpos.
  - rewrite !occurrences_app, !Hnum by reflexivity. repeat split.
  - repeat split.
Qed.

Lemma spotifyEmbedSrc_keeps_template_witness :
  occurrences "?" (spotifyEmbedSrc "4uLU6hMCjMI75M1A2tKUQC" "1:30") = 1%nat
  /\ occurrences "#" (spotifyEmbedSrc "4uLU6hMCjMI75M1A2tKUQC" "1:30") = 0%nat
  /\ occurrences "&" (spotifyEmbedSrc "4uLU6hMCjMI75M1A2tKUQC" "1:30")
     = (if 0 <? timeToSeconds "1:30" then 2%nat else 1%nat).
Proof.
  apply (spotifyEmbedSrc_keeps_template
           "https://open.spotify.com/track/4uLU6hMCjMI75M1A2tKUQC?si=abc").
  vm_compute. reflexivity.
Defined.

(** X22: whatever URL is pasted, the address that the title lookup
    fetches has one question mark, no fragment, and no parameter besides
    [url] and, for SoundCloud, [format]. *)
Theorem requestUrl_keeps_template (q : Lookup) :
  occurrences "?" (requestUrl q) = 1%nat
  /\ occurrences "#" (requestUrl q) = 0%nat
  /\ occurrences "&" (requestUrl q)
     = match q with SpotifyOEmbed _ => 0%nat | SoundCloudOEmbed _ => 1%nat end
  /\ occurrences "=" (requestUrl q)
     = match q with SpotifyOEmbed _ => 1%nat | SoundCloudOEmbed _ => 2%nat end.
Proof.
  assert (Henc : forall url c, JsText.isUriSafe c = false ->
            occurrences c (JsText.encodeURIComponent url) = 0%nat)
    by (intros url c; apply occurrences_none, encodeURIComponent_safe).
  destruct q as [url|url]; unfold requestUrl;
    rewrite !occurrences_app, !Henc by reflexivity; repeat split.
Qed.

Section AbsentRows.

Variables (ok : RemoteCall -> bool) (title : Lookup -> option string).

Lemma find_absent id l : ~ In id (ids l) -> List.find (hasId id) l = None.
Proof.
  induction l as [|x l IH]; intros H; [reflexivity|]. simpl.
  assert (Hx : hasId id x = false) by (apply hasId_false; intros E; apply H; left; exact E).
  rewrite Hx. apply IH. intros Hin. apply H. right. exact Hin.
Qed.

Lemma mapById_absent_ids id f l : ~ In id (ids l) -> mapById id f l = l.
Proof.
  intros H. apply mapById_absent. intros s Hs E. apply H. unfold ids.
  rewrite <- E. apply in_map. exact Hs.
Qed.

Lemma saveIfFound_absent r id f l :
  ~ In id (ids l) -> saveIfFound r id (mapById id f l) = skip.
Proof.
  intros H. unfold saveIfFound. rewrite mapById_absent_ids, find_absent by exact H.
  reflexivity.
Qed.

End AbsentRows.

(** X23: an edit, an upload or a pasted URL for an id that no row of the
    page has leaves the collection as it is and sends nothing to the
    table, also when a title lookup is started and answered. *)
Theorem edit_of_absent_row_changes_nothing ok title (e : Event) (id : string) (st : State) :
  (exists field value, e = FieldChanged id field value)
  \/ (exists audioUrl cleanedName, e = FileChosen id audioUrl cleanedName)
  \/ (exists url, e = SpotifyUrlChanged id url)
  \/ (exists url, e = SoundCloudUrlChanged id url) ->
  ~ In id (ids (snippets st)) ->
  snippets (perform ok title e st) = snippets st
  /\ remoteCalls (perform ok title e st) = remoteCalls st.
Proof.
  intros He Habs. unfold perform, finish. rewrite commit_snippets, commit_remoteCalls.
  destruct He as [(field & value & ->)|[(audioUrl & cleanedName & ->)|[(url & ->)|(url & ->)]]];
    cbn [handler].
  - unfold updateSnippet. cbv zeta. cbn [render r_snippets].
    rewrite saveIfFound_absent, mapById_absent_ids by exact Habs.
    split; reflexivity.
  - unfold handleFileUpload. cbv zeta. cbn [render r_snippets].
    rewrite saveIfFound_absent, mapById_absent_ids by exact Habs.
    split; reflexivity.
  - unfold handleSpotifyUrlChange, fillSongName. cbv zeta. cbn [render r_snippets].
    rewrite !saveIfFound_absent, !mapById_absent_ids by exact Habs.
    destruct (_ && _); [|split; reflexivity].
    cbn [andThen skip after exec]. destruct (trackTitle _); cbn [andThen skip after exec];
      rewrite ?saveIfFound_absent, ?mapById_absent_ids by exact Habs;
      cbn [andThen skip after exec setSnippets snippets remoteCalls];
      rewrite ?commit_snippets, ?commit_remoteCalls; split; reflexivity.
  - unfold handleSoundCloudUrlChange, fillSongName. cbv zeta. cbn [render r_snippets].
    rewrite !saveIfFound_absent, !mapById_absent_ids by exact Habs.
    destruct (_ && _); [|split; reflexivity].
    cbn [andThen skip after exec]. destruct (trackTitle _); cbn [andThen skip after exec];
      rewrite ?saveIfFound_absent, ?mapById_absent_ids by exact Habs;
      cbn [andThen skip after exec setSnippets snippets remoteCalls];
      rewrite ?commit_snippets, ?commit_remoteCalls; split; reflexivity.
Qed.

Lemma edit_of_absent_row_changes_nothing_witness :
  snippets (perform allOk (fun _ => Some "Fetched Title")
              (SpotifyUrlChanged "b" "https://open.spotify.com/track/abc")
              (session true [sampleA]))
  = snippets (session true [sampleA])
  /\ remoteCalls (perform allOk (fun _ => Some "Fetched Title")
                    (SpotifyUrlChanged "b" "https://open.spotify.com/track/abc")
                    (session true [sampleA]))
     = remoteCalls (session true [sampleA]).
Proof.
  apply (edit_of_absent_row_changes_nothing allOk (fun _ => Some "Fetched Title")
           (SpotifyUrlChanged "b" "https://open.spotify.com/track/abc") "b"
           (session true [sampleA])).
  - right. right. left. eexists. reflexivity.
  - vm_compute. intros [H|[]]. discriminate H.
Defined.

(** * Ids and positions of new snippets *)

Lemma toString_inj n m : Js.toString n = Js.toString m -> n = m.
Proof.
  intros H. pose proof (parseInt_toString n) as Hn. rewrite H, parseInt_toString in Hn.
  congruence.
Qed.

Lemma ids_app l k : ids (l ++ k) = (ids l ++ ids k)%list.
Proof. apply map_app. Qed.

Lemma length_filter_one id l :
  NoDup (ids l) -> In id (ids l) ->
  S (length (List.filter (fun snippet => negb (hasId id snippet)) l)) = length l.
Proof.
  induction l as [|x l IH]; intros Hn Hin; [destruct Hin|].
  cbn [ids map] in Hn. apply NoDup_cons in Hn as [Hx Hl]. cbn [List.filter length].
  destruct (hasId id x) eqn:E; cbn [negb].
  - apply hasId_true in E. rewrite filter_absent; [reflexivity|].
    intros Hid. apply Hx. apply list_elem_of_In. rewrite E. exact Hid.
  - cbn [length]. f_equal. apply IH; [exact Hl|].
    destruct Hin as [Hin|Hin]; [|exact Hin]. apply hasId_false in E. contradiction.
Qed.

(** X24: the id of a new snippet is the reading of the clock, and nothing
    checks it against the ids on the page: adding a snippet keeps the ids
    distinct exactly when the reading is not yet the id of a row. Two
    different readings give two different ids. *)
Theorem new_id_is_distinct_iff_clock_is_new ok title (now : Z) (st : State) :
  NoDup (ids (snippets st)) ->
  (NoDup (ids (snippets (perform ok title (AddClicked now) st)))
   <-> ~ In (Js.toString now) (ids (snippets st)))
  /\ (forall now', Snippet.id (newSnippet now' (render st))
                   = Snippet.id (newSnippet now (render st)) -> now' = now).
Proof.
  intros Hn. split; [|intros now' H; apply toString_inj, H].
  rewrite perform_add_snippets, ids_app. cbn [ids map newSnippet Snippet.id].
  rewrite NoDup_app. split.
  - intros (_ & Hdis & _) Hin. apply (Hdis (Js.toString now)).
    + apply list_elem_of_In, Hin.
    + apply list_elem_of_singleton. reflexivity.
  - intros Hfresh. split; [exact Hn|]. split; [|apply NoDup_singleton].
    intros x Hx Hx'. apply list_elem_of_singleton in Hx'. subst x.
    apply Hfresh, list_elem_of_In, Hx.
Qed.

Lemma new_id_is_distinct_iff_clock_is_new_witness :
  (NoDup (ids (snippets (perform allOk noTitle (AddClicked 1700000000000)
                           (session true [sampleA; sampleB]))))
   <-> ~ In (Js.toString 1700000000000) (ids (snippets (session true [sampleA; sampleB]))))
  /\ (forall now', Snippet.id (newSnippet now' (render (session true [sampleA; sampleB])))
                   = Snippet.id (newSnippet 1700000000000
                                   (render (session true [sampleA; sampleB]))) ->
                   now' = 1700000000000).
Proof.
  apply (new_id_is_distinct_iff_clock_is_new allOk noTitle 1700000000000
           (session true [sampleA; sampleB])).
  simpl. repeat constructor; rewrite ?list_elem_of_In; simpl; intuition discriminate.
Defined.

(** X25: positions are not renumbered. After a row other than the last
    one is deleted, the next snippet that is added gets the position that
    the last row already has: the position of a new snippet is the number
    of rows, and the last row was given that number less one when there
    was one row more. *)
Theorem add_after_delete_reuses_position ok1 title1 ok2 title2 (id : string) (now : Z)
    (st : State) (l : list MusicSnippet) (s : MusicSnippet) :
  snippets st = (l ++ [s])%list -> NoDup (ids (snippets st)) -> In id (ids l) ->
  Snippet.position s = JsNumber (Z.of_nat (length l)) ->
  exists new,
    snippets (perform ok2 title2 (AddClicked now)
                (perform ok1 title1 (DeleteClicked id) st))
    = (List.filter (fun snippet => negb (hasId id snippet)) l ++ [s; new])%list
    /\ Snippet.id new = Js.toString now
    /\ Snippet.position new = Snippet.position s.
Proof.
  intros Hst Hn Hin Hpos. rewrite Hst, ids_app in Hn.
  apply NoDup_app in Hn as (Hl & Hdis & _).
  assert (Hs : hasId id s = false).
  { apply hasId_false. intros E. apply (Hdis id).
    - apply list_elem_of_In, Hin.
    - cbn [ids map]. rewrite E. apply list_elem_of_singleton. reflexivity. }
  rewrite perform_add_snippets. cbn [render r_snippets].
  rewrite perform_delete_snippets, Hst, List.filter_app. cbn [List.filter]. rewrite Hs.
  cbn [negb]. eexists. split; [rewrite <- app_assoc; reflexivity|].
  split; [reflexivity|]. cbn [newSnippet Snippet.position r_snippets]. rewrite Hpos.
  cbn [render r_snippets].
  rewrite perform_delete_snippets, Hst, List.filter_app. cbn [List.filter]. rewrite Hs.
  cbn [negb]. f_equal. f_equal. rewrite length_app. cbn [length].
  rewrite <- (length_filter_one id l Hl Hin). lia.
Qed.

Lemma add_after_delete_reuses_position_witness :
  exists new,
    snippets (perform allOk noTitle (AddClicked 1700000000000)
                (perform allOk noTitle (DeleteClicked "a") (session true [sampleA; sampleB])))
    = (List.filter (fun snippet => negb (hasId "a" snippet)) [sampleA] ++ [sampleB; new])%list
    /\ Snippet.id new = Js.toString 1700000000000
    /\ Snippet.position new = Snippet.position sampleB.
Proof.
  apply (add_after_delete_reuses_position allOk noTitle allOk noTitle "a" 1700000000000
           (session true [sampleA; sampleB]) [sampleA] sampleB).
  - reflexivity.
  - simpl. repeat constructor; rewrite ?list_elem_of_In; simpl; intuition discriminate.
  - simpl. left. reflexivity.
  - reflexivity.
Defined.
